(** * Advertisement service: a shallow embedding of [main.py]

    The service keeps advertisement records in a module-level Python
    dictionary and exposes create / update / delete / get / search / health
    handlers through FastAPI.  This development embeds

    - the Python values the handlers manipulate (str, float, datetime, None),
    - the insertion-ordered dictionary [advertisements_db],
    - the declarative pydantic / [Query] constraints, as boolean checks run
      before the handler body,
    - the handler bodies, written in a state-and-exception monad over the
      dictionary,

    and states the service's contract as theorems about these definitions.

    Modelling conventions.
    - [str] is [string], one [ascii] per character: the texts of the model
      are those whose characters have code points 0 to 255, and [len] is
      [String.length].  On these characters [str.lower] maps A-Z and the
      capital letters 192-214 and 216-222 to the character 32 places up and
      leaves every other character as it is.
    - [float] is IEEE-754 binary64 as [spec_float]: comparisons are those of
      [SFcompare], so NaN compares false with everything and [-0.0 == 0.0].
    - [datetime] carries an optional UTC offset; ordering a naive against an
      aware value raises [TypeError], as in CPython.
    - [uuid4()] and [datetime.utcnow()] are answers of the environment; the
      record [Env] holds the answers given during one request.
    - The serialisation of the returned value ([response_model]) is outside
      the model: a handler's result is the value it returns or the exception
      it raises. *)

From Stdlib Require Import List String Ascii Bool ZArith NArith Lia.
From Stdlib Require Import Floats.SpecFloat.
Import ListNotations.

Local Open Scope string_scope.
Local Open Scope bool_scope.

Set Implicit Arguments.

(* ================================================================= *)
(** ** Python values *)

(** *** Strings *)

Module Str.

Definition is_upper (n : nat) : bool :=
  ((65 <=? n)%nat && (n <=? 90)%nat)
  || ((192 <=? n)%nat && (n <=? 222)%nat && negb (n =? 215)%nat).

Definition lower_char (c : ascii) : ascii :=
  let n := nat_of_ascii c in
  if is_upper n then ascii_of_nat (n + 32) else c.

(** [s.lower()] *)
Fixpoint lower (s : string) : string :=
  match s with
  | EmptyString => EmptyString
  | String c rest => String (lower_char c) (lower rest)
  end.

(** [needle in hay] *)
Fixpoint contains (needle hay : string) : bool :=
  match hay with
  | EmptyString => prefix needle EmptyString
  | String _ rest => prefix needle hay || contains needle rest
  end.

(** [min_length <= len(s) <= max_length] *)
Definition len_between (lo hi : nat) (s : string) : bool :=
  (lo <=? String.length s)%nat && (String.length s <=? hi)%nat.

(** the [min_length]-only constraint of a [Query] parameter *)
Definition len_at_least (lo : nat) (s : string) : bool :=
  (lo <=? String.length s)%nat.

End Str.

(** *** Floats *)

Definition float : Type := spec_float.

Module Float.

Definition zero : float := S754_zero false.
Definition neg_zero : float := S754_zero true.
Definition nan : float := S754_nan.

(** the binary64 value of an integer *)
Definition of_Z (n : Z) : float := binary_normalize 53 1024 n 0 false.

Definition lt (x y : float) : bool := SFltb x y.   (* x < y  *)
Definition gt (x y : float) : bool := SFltb y x.   (* x > y  *)
Definition le (x y : float) : bool := SFleb x y.   (* x <= y *)
Definition ge (x y : float) : bool := SFleb y x.   (* x >= y *)

Definition is_nan (x : float) : bool :=
  match x with S754_nan => true | _ => false end.

End Float.

(** *** Datetimes *)

(** A [datetime]: the wall-clock reading in microseconds and, for an aware
    value, its UTC offset in microseconds.  [datetime.utcnow()] returns a
    naive value; a query parameter written with a [Z] suffix, an offset or
    as a Unix timestamp is parsed into an aware one. *)
Record datetime := mk_datetime {
  wall : Z;
  utcoffset : option Z
}.

Definition naive (t : Z) : datetime := mk_datetime t None.
Definition aware_utc (t : Z) : datetime := mk_datetime t (Some 0%Z).

Definition is_naive (d : datetime) : bool :=
  match utcoffset d with None => true | Some _ => false end.

(** *** Exceptions and results *)

Inductive exn :=
| HTTPException (status_code : Z) (detail : string)
| RequestValidationError (locs : list string)  (* FastAPI, status 422 *)
| ValidationError (locs : list string)         (* pydantic, model construction *)
| ValueError (msg : string)
| TypeError
| AttributeError
| KeyError.

Inductive result (A : Type) :=
| Ok (a : A)
| Raise (e : exn).

Arguments Ok {A} a.
Arguments Raise {A} e.

Definition rbind {A B} (r : result A) (k : A -> result B) : result B :=
  match r with
  | Ok a => k a
  | Raise e => Raise e
  end.

Declare Scope result_scope.
Delimit Scope result_scope with result.
Notation "x <- r ;; k" := (rbind r (fun x => k))
  (at level 61, r at next level, right associativity) : result_scope.

(** [a < b] and [a > b] on datetimes *)
Definition datetime_lt (a b : datetime) : result bool :=
  match utcoffset a, utcoffset b with
  | None, None => Ok (wall a <? wall b)%Z
  | Some oa, Some ob => Ok (wall a - oa <? wall b - ob)%Z
  | _, _ => Raise TypeError
  end.

Definition datetime_gt (a b : datetime) : result bool := datetime_lt b a.

(** *** Dynamically typed attribute values

    The attributes of a stored record are assigned with [setattr] and are
    not re-validated, so an attribute holds whatever value the request
    carried: a string, a float, or [None]. *)
Inductive pyval :=
| PyNone
| PyStr (s : string)
| PyFloat (x : float).

(** [v.lower()] *)
Definition py_lower (v : pyval) : result string :=
  match v with
  | PyStr s => Ok (Str.lower s)
  | _ => Raise AttributeError
  end.

(** [v < x] and [v > x] for a float [x] *)
Definition py_lt (v : pyval) (x : float) : result bool :=
  match v with
  | PyFloat y => Ok (Float.lt y x)
  | _ => Raise TypeError
  end.

Definition py_gt (v : pyval) (x : float) : result bool :=
  match v with
  | PyFloat y => Ok (Float.gt y x)
  | _ => Raise TypeError
  end.

(** *** Truth values: Python's [bool(x)] *)

Class PyBool (A : Type) := truth : A -> bool.

#[export] Instance str_PyBool : PyBool string :=
  fun s => match s with EmptyString => false | _ => true end.

#[export] Instance float_PyBool : PyBool float :=
  fun x => negb (SFeqb x Float.zero).

#[export] Instance datetime_PyBool : PyBool datetime :=
  fun _ => true.

(** [None] is false; any other value answers for itself *)
#[export] Instance option_PyBool (A : Type) `{PyBool A} : PyBool (option A) :=
  fun o => match o with None => false | Some a => truth a end.

(* ================================================================= *)
(** ** The dictionary [advertisements_db]

    A Python [dict] keeps its keys in insertion order: assigning to a key
    that is present keeps the key's position, assigning to a new key appends
    it, and [values()] lists the values in that order. *)

Module Dict.

Section Ops.
Variable V : Type.

Definition t := list (string * V).

Definition empty : t := [].

(** [k in d] *)
Definition contains (k : string) (d : t) : bool :=
  existsb (fun kv => String.eqb k (fst kv)) d.

(** [d[k]] *)
Fixpoint getitem (k : string) (d : t) : option V :=
  match d with
  | [] => None
  | (k', v) :: rest => if String.eqb k k' then Some v else getitem k rest
  end.

(** [d[k] = v] *)
Fixpoint setitem (k : string) (v : V) (d : t) : t :=
  match d with
  | [] => [(k, v)]
  | (k', v') :: rest =>
      if String.eqb k k' then (k', v) :: rest
      else (k', v') :: setitem k v rest
  end.

(** [del d[k]] *)
Definition delitem (k : string) (d : t) : t :=
  filter (fun kv => negb (String.eqb k (fst kv))) d.

(** [d.values()] and [d.keys()] *)
Definition values (d : t) : list V := map snd d.
Definition keys (d : t) : list string := map fst d.

(** The lists that stand for a dictionary: no key occurs twice. *)
Definition wf (d : t) : Prop := NoDup (keys d).

End Ops.

Arguments empty {V}.

End Dict.

(* ================================================================= *)
(** ** The pydantic models *)

(** [UUID]: the 128-bit integer; [str(uuid)] is its 8-4-4-4-12 rendering in
    lower-case hexadecimal. *)
Definition UUID : Type := N.

Definition hexdigit (n : N) : ascii :=
  match n with
  | 0 => "0" | 1 => "1" | 2 => "2" | 3 => "3" | 4 => "4" | 5 => "5"
  | 6 => "6" | 7 => "7" | 8 => "8" | 9 => "9" | 10 => "a" | 11 => "b"
  | 12 => "c" | 13 => "d" | 14 => "e" | _ => "f"
  end%N%char.

Fixpoint hex (width : nat) (n : N) : string :=
  match width with
  | O => EmptyString
  | S w => hex w (n / 16)%N ++ String (hexdigit (n mod 16)%N) EmptyString
  end.

Definition str_of_UUID (u : UUID) : string :=
  let h := hex 32 u in
  substring 0 8 h ++ "-" ++ substring 8 4 h ++ "-" ++ substring 12 4 h
    ++ "-" ++ substring 16 4 h ++ "-" ++ substring 20 12 h.

(** [class Advertisement(BaseModel)] *)
Record Advertisement := mk_Advertisement {
  id : UUID;
  title : pyval;
  description : pyval;
  price : pyval;
  author : pyval;
  created_at : datetime
}.

(** [class AdvertisementCreate(BaseModel)]: a decoded request body *)
Record AdvertisementCreate := mk_AdvertisementCreate {
  c_title : string;
  c_description : string;
  c_price : float;
  c_author : string
}.

(** [class AdvertisementUpdate(BaseModel)].  Every field is [Optional] with
    default [None]; pydantic also records which fields the body set.  A
    field is therefore unset ([None] here), set to [null] ([Some None]) or
    set to a value ([Some (Some v)]). *)
Record AdvertisementUpdate := mk_AdvertisementUpdate {
  u_title : option (option string);
  u_description : option (option string);
  u_price : option (option float);
  u_author : option (option string)
}.

(** The query parameters of [GET /advertisement] *)
Record SearchQuery := mk_SearchQuery {
  q_title : option string;
  q_description : option string;
  q_author : option string;
  price_min : option float;
  price_max : option float;
  created_after : option datetime;
  created_before : option datetime
}.

(** *** Field constraints *)

(** [Field(..., gt=0)]: the value is kept only when [v > 0] holds. *)
Definition gt0 (v : float) : bool := Float.gt v Float.zero.

(** [Field(None, ...)] on an [Optional] field: [None] is accepted as it is
    and the constraint is checked on any other value. *)
Definition optional {A} (check : A -> bool) (o : option A) : bool :=
  match o with
  | None => true
  | Some v => check v
  end.

(** a field of [AdvertisementUpdate]: unset, or an [Optional] value *)
Definition unset_or {A} (check : A -> bool) (o : option (option A)) : bool :=
  match o with
  | None => true
  | Some v => optional check v
  end.

Local Open Scope result_scope.

(** Validation checks every field and reports all the fields that fail. *)
Definition failures (checks : list (string * bool)) : list string :=
  map fst (filter (fun c => negb (snd c)) checks).

Definition validated (error : list string -> exn)
    (checks : list (string * bool)) : result unit :=
  match failures checks with
  | [] => Ok tt
  | locs => Raise (error locs)
  end.

Definition validate_AdvertisementCreate (ad : AdvertisementCreate)
  : result unit :=
  validated RequestValidationError
    [ ("title", Str.len_between 1 200 (c_title ad));
      ("description", Str.len_between 1 2000 (c_description ad));
      ("price", gt0 (c_price ad));
      ("author", Str.len_between 1 100 (c_author ad)) ].

Definition validate_AdvertisementUpdate (u : AdvertisementUpdate)
  : result unit :=
  validated RequestValidationError
    [ ("title", unset_or (Str.len_between 1 200) (u_title u));
      ("description", unset_or (Str.len_between 1 2000) (u_description u));
      ("price", unset_or gt0 (u_price u));
      ("author", unset_or (Str.len_between 1 100) (u_author u)) ].

Definition validate_SearchQuery (q : SearchQuery) : result unit :=
  validated RequestValidationError
    [ ("title", optional (Str.len_at_least 1) (q_title q));
      ("description", optional (Str.len_at_least 1) (q_description q));
      ("author", optional (Str.len_at_least 1) (q_author q));
      ("price_min", optional gt0 (price_min q));
      ("price_max", optional gt0 (price_max q)) ].

(** [@validator('price')] of [Advertisement] *)
Definition validate_price (v : float) : result float :=
  if Float.le v Float.zero then
    Raise (ValueError "Price must be greater than 0")
  else Ok v.

Definition passes {A} (r : result A) : bool :=
  match r with
  | Ok _ => true
  | Raise _ => false
  end.

(** The construction of an [Advertisement] from the fields of [ad.dict()]:
    the four fields are validated again, the [price] validator running
    after the field constraint, and [id] and [created_at] come from their
    default factories. *)
Definition new_Advertisement (uuid : UUID) (now : datetime)
    (ad : AdvertisementCreate) : result Advertisement :=
  _ <- validated ValidationError
         [ ("title", Str.len_between 1 200 (c_title ad));
           ("description", Str.len_between 1 2000 (c_description ad));
           ("price", gt0 (c_price ad) && passes (validate_price (c_price ad)));
           ("author", Str.len_between 1 100 (c_author ad)) ] ;;
  Ok (mk_Advertisement uuid (PyStr (c_title ad)) (PyStr (c_description ad))
        (PyFloat (c_price ad)) (PyStr (c_author ad)) now).

(** [ad_update.dict(exclude_unset=True)]: the fields the body set, in the
    order of their declaration, each with its value. *)
Inductive field := Title | Description | Price | Author.

Definition of_opt_str (o : option string) : pyval :=
  match o with None => PyNone | Some s => PyStr s end.

Definition of_opt_float (o : option float) : pyval :=
  match o with None => PyNone | Some x => PyFloat x end.

Definition item {A} (f : field) (conv : option A -> pyval)
    (o : option (option A)) : list (field * pyval) :=
  match o with
  | None => []
  | Some v => [(f, conv v)]
  end.

Definition dict_exclude_unset (u : AdvertisementUpdate)
  : list (field * pyval) :=
  item Title of_opt_str (u_title u)
    ++ item Description of_opt_str (u_description u)
    ++ item Price of_opt_float (u_price u)
    ++ item Author of_opt_str (u_author u).

(** [setattr(advertisement, field, value)]: no validation on assignment *)
Definition setattr (ad : Advertisement) (f : field) (v : pyval)
  : Advertisement :=
  match f with
  | Title =>
      mk_Advertisement (id ad) v (description ad) (price ad) (author ad)
        (created_at ad)
  | Description =>
      mk_Advertisement (id ad) (title ad) v (price ad) (author ad)
        (created_at ad)
  | Price =>
      mk_Advertisement (id ad) (title ad) (description ad) v (author ad)
        (created_at ad)
  | Author =>
      mk_Advertisement (id ad) (title ad) (description ad) (price ad) v
        (created_at ad)
  end.

(* ================================================================= *)
(** ** The search loop

    One pass of the loop body either appends the record to [results], leaves
    [results] as it is ([continue]), or raises. *)

(** [if c and test(c): continue], for an optional criterion [c]: the test
    is evaluated only when [c] is true in Python's sense. *)
Definition guard {A} `{PyBool A} (c : option A) (test : A -> result bool)
  : result bool :=
  match c with
  | Some v => if truth v then test v else Ok false
  | None => Ok false
  end.

(** [t.lower() not in v.lower()] *)
Definition lower_not_in (t : string) (v : pyval) : result bool :=
  let needle := Str.lower t in
  hay <- py_lower v ;;
  Ok (negb (Str.contains needle hay)).

Definition loop_body (q : SearchQuery) (ad : Advertisement)
    (results : list Advertisement) : result (list Advertisement) :=
  skip <- guard (q_title q) (fun t => lower_not_in t (title ad)) ;;
  if skip then Ok results else
  skip <- guard (q_description q)
            (fun t => lower_not_in t (description ad)) ;;
  if skip then Ok results else
  skip <- guard (q_author q) (fun t => lower_not_in t (author ad)) ;;
  if skip then Ok results else
  skip <- guard (price_min q) (fun lo => py_lt (price ad) lo) ;;
  if skip then Ok results else
  skip <- guard (price_max q) (fun hi => py_gt (price ad) hi) ;;
  if skip then Ok results else
  skip <- guard (created_after q)
            (fun t => datetime_lt (created_at ad) t) ;;
  if skip then Ok results else
  skip <- guard (created_before q)
            (fun t => datetime_gt (created_at ad) t) ;;
  if skip then Ok results else
  Ok (results ++ [ad])%list.

(** [for ad in advertisements_db.values(): ...] *)
Fixpoint for_each (q : SearchQuery) (ads : list Advertisement)
    (results : list Advertisement) : result (list Advertisement) :=
  match ads with
  | [] => Ok results
  | ad :: rest =>
      results' <- loop_body q ad results ;;
      for_each q rest results'
  end.

(** [price_min and price_max and price_min > price_max] *)
Definition range_inverted (q : SearchQuery) : bool :=
  match price_min q, price_max q with
  | Some lo, Some hi => truth lo && truth hi && Float.gt lo hi
  | _, _ => false
  end.

(* ================================================================= *)
(** ** Handlers: state and exceptions over [advertisements_db] *)

Definition Store : Type := Dict.t Advertisement.

(** A computation reads and writes the store and returns or raises; a raise
    keeps the writes made before it. *)
Definition M (A : Type) : Type := Store -> result A * Store.

Definition ret {A} (a : A) : M A := fun db => (Ok a, db).

Definition raise {A} (e : exn) : M A := fun db => (Raise e, db).

Definition lift {A} (r : result A) : M A := fun db => (r, db).

Definition bind {A B} (m : M A) (k : A -> M B) : M B :=
  fun db =>
    match m db with
    | (Ok a, db') => k a db'
    | (Raise e, db') => (Raise e, db')
    end.

Declare Scope handler_scope.
Delimit Scope handler_scope with handler.
Notation "x <- m ;; k" := (bind m (fun x => k))
  (at level 61, m at next level, right associativity) : handler_scope.

(** The operations the handlers apply to [advertisements_db]. *)
Definition db_contains (k : string) : M bool :=
  fun db => (Ok (Dict.contains k db), db).

Definition db_getitem (k : string) : M Advertisement :=
  fun db =>
    match Dict.getitem k db with
    | Some ad => (Ok ad, db)
    | None => (Raise KeyError, db)
    end.

Definition db_setitem (k : string) (ad : Advertisement) : M unit :=
  fun db => (Ok tt, Dict.setitem k ad db).

Definition db_delitem (k : string) : M unit :=
  fun db =>
    if Dict.contains k db then (Ok tt, Dict.delitem k db)
    else (Raise KeyError, db).

Definition db_values : M (list Advertisement) :=
  fun db => (Ok (Dict.values db), db).

(** What [uuid4()] and [datetime.utcnow()] answer during one request. *)
Record Env := mk_Env {
  uuid4 : UUID;
  utcnow : datetime
}.

Definition not_found : exn := HTTPException 404 "Advertisement not found".

Definition invalid_range : exn :=
  HTTPException 400 "price_min cannot be greater than price_max".

Local Open Scope handler_scope.

Definition create_advertisement (env : Env) (ad : AdvertisementCreate)
  : M Advertisement :=
  advertisement <- lift (new_Advertisement (uuid4 env) (utcnow env) ad) ;;
  _ <- db_setitem (str_of_UUID (id advertisement)) advertisement ;;
  ret advertisement.

(** The record is fetched, its attributes are assigned one by one, and it
    is stored back under its key.  (In Python the assignments already act
    on the stored object; no step between the fetch and the store can
    raise, so the store after the handler is the same.) *)
Definition update_advertisement (advertisement_id : string)
    (ad_update : AdvertisementUpdate) : M Advertisement :=
  present <- db_contains advertisement_id ;;
  if negb present then raise not_found else
  advertisement <- db_getitem advertisement_id ;;
  let update_data := dict_exclude_unset ad_update in
  let advertisement :=
    fold_left (fun ad fv => setattr ad (fst fv) (snd fv))
      update_data advertisement in
  _ <- db_setitem advertisement_id advertisement ;;
  ret advertisement.

Definition delete_advertisement (advertisement_id : string) : M unit :=
  present <- db_contains advertisement_id ;;
  if negb present then raise not_found else
  _ <- db_delitem advertisement_id ;;
  ret tt.

Definition get_advertisement (advertisement_id : string) : M Advertisement :=
  present <- db_contains advertisement_id ;;
  if negb present then raise not_found else
  db_getitem advertisement_id.

Definition search_advertisements (q : SearchQuery)
  : M (list Advertisement) :=
  if range_inverted q then raise invalid_range else
  ads <- db_values ;;
  lift (for_each q ads []).

Record Health := mk_Health {
  status : string;
  timestamp : datetime
}.

Definition health_check (env : Env) : M Health :=
  ret (mk_Health "healthy" (utcnow env)).

(** *** The routes: request validation, then the handler

    [serve] follows a request up to the return of its handler.  What the
    framework does with the returned value afterwards (validation against
    [response_model], rendering) is not part of it. *)

Inductive request :=
| POST_advertisement (body : AdvertisementCreate)
| PATCH_advertisement (advertisement_id : string)
    (body : AdvertisementUpdate)
| DELETE_advertisement (advertisement_id : string)
| GET_advertisement (advertisement_id : string)
| GET_advertisements (query : SearchQuery)
| GET_health.

Inductive response :=
| one_advertisement (ad : Advertisement)
| advertisements (ads : list Advertisement)
| no_content
| health (h : Health).

Definition serve (env : Env) (req : request) : M response :=
  match req with
  | POST_advertisement body =>
      _ <- lift (validate_AdvertisementCreate body) ;;
      ad <- create_advertisement env body ;;
      ret (one_advertisement ad)
  | PATCH_advertisement advertisement_id body =>
      _ <- lift (validate_AdvertisementUpdate body) ;;
      ad <- update_advertisement advertisement_id body ;;
      ret (one_advertisement ad)
  | DELETE_advertisement advertisement_id =>
      _ <- delete_advertisement advertisement_id ;;
      ret no_content
  | GET_advertisement advertisement_id =>
      ad <- get_advertisement advertisement_id ;;
      ret (one_advertisement ad)
  | GET_advertisements query =>
      _ <- lift (validate_SearchQuery query) ;;
      ads <- search_advertisements query ;;
      ret (advertisements ads)
  | GET_health =>
      h <- health_check env ;;
      ret (health h)
  end.

(** The stores the service can be in: the empty dictionary at start-up and
    whatever a request leaves behind. *)
Inductive reachable : Store -> Prop :=
| reachable_start : reachable Dict.empty
| reachable_serve env req db :
    reachable db -> reachable (snd (serve env req db)).

(* ================================================================= *)
(** ** Sample data *)

Module Sample.

Definition bike : AdvertisementCreate :=
  mk_AdvertisementCreate "Bike" "Red bike" (Float.of_Z 100) "Alice".

Definition lamp : AdvertisementCreate :=
  mk_AdvertisementCreate "Lamp" "Desk lamp" (Float.of_Z 20) "Bob".

Definition env1 : Env :=
  mk_Env 0x123e4567e89b42d3a456426614174000%N (naive 1700000000000000).

Definition env2 : Env :=
  mk_Env 0x9b2f1c3ad4e54f6a8b7c0d1e2f3a4b5c%N (naive 1700000060000000).

Definition key1 : string := str_of_UUID (uuid4 env1).
Definition key2 : string := str_of_UUID (uuid4 env2).

(** the store after [POST bike] *)
Definition db1 : Store := snd (serve env1 (POST_advertisement bike) Dict.empty).

(** the store after [POST bike] and [POST lamp] *)
Definition db2 : Store := snd (serve env2 (POST_advertisement lamp) db1).

Definition no_criteria : SearchQuery :=
  mk_SearchQuery None None None None None None None.

End Sample.

(* ================================================================= *)
(** ** The contract, as predicates on records and stores *)

(** *** Search criteria *)

(** case-insensitive substring match of a criterion against an attribute *)
Definition str_matches (c : option string) (v : pyval) : bool :=
  match c, v with
  | None, _ => true
  | Some t, PyStr s => Str.contains (Str.lower t) (Str.lower s)
  | Some _, _ => false
  end.

(** [price >= price_min] *)
Definition price_at_least (c : option float) (v : pyval) : bool :=
  match c, v with
  | None, _ => true
  | Some lo, PyFloat p => Float.ge p lo
  | Some _, _ => false
  end.

(** [price <= price_max] *)
Definition price_at_most (c : option float) (v : pyval) : bool :=
  match c, v with
  | None, _ => true
  | Some hi, PyFloat p => Float.le p hi
  | Some _, _ => false
  end.

(** [created_at >= created_after], on naive datetimes *)
Definition not_before (c : option datetime) (t : datetime) : bool :=
  match c with
  | None => true
  | Some a => (wall a <=? wall t)%Z
  end.

(** [created_at <= created_before], on naive datetimes *)
Definition not_after (c : option datetime) (t : datetime) : bool :=
  match c with
  | None => true
  | Some b => (wall t <=? wall b)%Z
  end.

(** the record satisfies every supplied criterion *)
Definition satisfies (q : SearchQuery) (ad : Advertisement) : bool :=
  str_matches (q_title q) (title ad)
  && str_matches (q_description q) (description ad)
  && str_matches (q_author q) (author ad)
  && price_at_least (price_min q) (price ad)
  && price_at_most (price_max q) (price ad)
  && not_before (created_after q) (created_at ad)
  && not_after (created_before q) (created_at ad).

(** the datetime criteria are naive, like the [created_at] of a record *)
Definition naive_criteria (q : SearchQuery) : bool :=
  optional is_naive (created_after q) && optional is_naive (created_before q).

(** *** Records as the [Advertisement] model declares them *)

Definition is_str_between (lo hi : nat) (v : pyval) : bool :=
  match v with
  | PyStr s => Str.len_between lo hi s
  | _ => false
  end.

Definition is_float_gt0 (v : pyval) : bool :=
  match v with
  | PyFloat x => gt0 x
  | _ => false
  end.

Definition Advertisement_ok (ad : Advertisement) : bool :=
  is_str_between 1 200 (title ad)
  && is_str_between 1 2000 (description ad)
  && is_float_gt0 (price ad)
  && is_str_between 1 100 (author ad).

(** Every entry is filed under the text of its own id. *)
Definition keyed_by_id (db : Store) : Prop :=
  Forall (fun kv => fst kv = str_of_UUID (id (snd kv))) db.

(** No key occurs twice, every entry is filed under its id, every record
    meets the declared bounds and carries a naive timestamp. *)
Definition store_ok (db : Store) : Prop :=
  Dict.wf db
  /\ keyed_by_id db
  /\ Forall (fun ad => Advertisement_ok ad = true) (Dict.values db)
  /\ Forall (fun ad => is_naive (created_at ad) = true) (Dict.values db).

(** *** Requests that set no field to [null] *)

Definition not_null {A} (o : option (option A)) : bool :=
  match o with
  | Some None => false
  | _ => true
  end.

Definition no_null (req : request) : bool :=
  match req with
  | PATCH_advertisement _ u =>
      not_null (u_title u) && not_null (u_description u)
      && not_null (u_price u) && not_null (u_author u)
  | _ => true
  end.

(** the environment answers [utcnow()] with a naive datetime *)
Definition env_ok (env : Env) : bool := is_naive (utcnow env).

Inductive reachable_no_null : Store -> Prop :=
| no_null_start : reachable_no_null Dict.empty
| no_null_serve env req db :
    reachable_no_null db -> env_ok env = true -> no_null req = true ->
    reachable_no_null (snd (serve env req db)).

(** *** The field a partial update leaves or replaces *)

Definition supplied_or {A} (conv : option A -> pyval)
    (o : option (option A)) (old : pyval) : pyval :=
  match o with
  | None => old
  | Some v => conv v
  end.

Definition empty_update : AdvertisementUpdate :=
  mk_AdvertisementUpdate None None None None.

(** a criterion is supplied *)
Definition supplied {A} (o : option A) : bool :=
  match o with
  | None => false
  | Some _ => true
  end.

(** The reading of "create returns an id previously unseen" on the store:
    whatever [uuid4()] answers, the returned id is not yet a key. *)
Definition create_id_always_unseen : Prop :=
  forall env db c ad,
    validate_AdvertisementCreate c = Ok tt ->
    fst (create_advertisement env c db) = Ok ad ->
    Dict.contains (str_of_UUID (id ad)) db = false.

(** The record [create] builds from a validated body. *)
Definition created (env : Env) (c : AdvertisementCreate) : Advertisement :=
  mk_Advertisement (uuid4 env) (PyStr (c_title c)) (PyStr (c_description c))
    (PyFloat (c_price c)) (PyStr (c_author c)) (utcnow env).

(** The exceptions the search loop can raise. *)
Definition raised_by_scan (e : exn) : Prop :=
  e = TypeError \/ e = AttributeError.

(** *** More sample data *)

Module Scenario.
Import Sample.

(** [GET /advertisement?created_after=2023-01-01T00:00:00Z] *)
Definition since_2023_utc : SearchQuery :=
  mk_SearchQuery None None None None None
    (Some (aware_utc 1672531200000000)) None.

(** [GET /advertisement?title=bike&price_min=50] *)
Definition bike_from_50 : SearchQuery :=
  mk_SearchQuery (Some "bike") None None (Some (Float.of_Z 50)) None
    None None.

(** [GET /advertisement?price_min=0] *)
Definition from_zero : SearchQuery :=
  mk_SearchQuery None None None (Some Float.zero) None None None.


(** [PATCH] bodies: [{"title": null}] and [{"price": 150.0}] *)
Definition null_title : AdvertisementUpdate :=
  mk_AdvertisementUpdate (Some None) None None None.

Definition price_150 : AdvertisementUpdate :=
  mk_AdvertisementUpdate None None (Some (Some (Float.of_Z 150))) None.

(** the store after [POST bike] and [PATCH {"title": null}] on it *)
Definition db_null_title : Store :=
  snd (serve env2 (PATCH_advertisement key1 null_title) db1).

(** a second [uuid4()] answer equal to the first *)
Definition env1_again : Env :=
  mk_Env (uuid4 env1) (naive 1700000120000000).

End Scenario.

(* ================================================================= *)
(** ** Further vocabulary for the properties of the handlers *)

(** [l1] is [l2] with some elements left out, the others in place. *)
Inductive subseq {A : Type} : list A -> list A -> Prop :=
| subseq_nil : subseq [] []
| subseq_skip x l1 l2 : subseq l1 l2 -> subseq l1 (x :: l2)
| subseq_keep x l1 l2 : subseq l1 l2 -> subseq (x :: l1) (x :: l2).

(** A criterion with the values that are false in Python's sense taken
    for absent. *)
Definition keep_truthy {A} `{PyBool A} (c : option A) : option A :=
  match c with
  | Some v => if truth v then Some v else None
  | None => None
  end.

Definition drop_falsy (q : SearchQuery) : SearchQuery :=
  mk_SearchQuery (keep_truthy (q_title q)) (keep_truthy (q_description q))
    (keep_truthy (q_author q)) (keep_truthy (price_min q))
    (keep_truthy (price_max q)) (keep_truthy (created_after q))
    (keep_truthy (created_before q)).

(** The criteria with the three strings written in lower case. *)
Definition fold_case (q : SearchQuery) : SearchQuery :=
  mk_SearchQuery (option_map Str.lower (q_title q))
    (option_map Str.lower (q_description q))
    (option_map Str.lower (q_author q))
    (price_min q) (price_max q) (created_after q) (created_before q).

(** The criteria [price_min = price_max = p] and nothing else. *)
Definition priced_exactly (p : float) : SearchQuery :=
  mk_SearchQuery None None None (Some p) (Some p) None None.

(** the price of the record compares equal to [p] *)
Definition price_equals (p : float) (ad : Advertisement) : bool :=
  match price ad with
  | PyFloat x => SFeqb x p
  | _ => false
  end.

(** Two partial updates in a row, as one: a field the second sets wins. *)
Definition later {A} (o1 o2 : option A) : option A :=
  match o2 with
  | Some v => Some v
  | None => o1
  end.

Definition merge_updates (u1 u2 : AdvertisementUpdate) : AdvertisementUpdate :=
  mk_AdvertisementUpdate (later (u_title u1) (u_title u2))
    (later (u_description u1) (u_description u2))
    (later (u_price u1) (u_price u2))
    (later (u_author u1) (u_author u2)).

(** The key a request writes to, if any. *)
Definition target (env : Env) (req : request) : option string :=
  match req with
  | POST_advertisement _ => Some (str_of_UUID (uuid4 env))
  | PATCH_advertisement advertisement_id _ => Some advertisement_id
  | DELETE_advertisement advertisement_id => Some advertisement_id
  | _ => None
  end.

(** An attribute as the handlers can leave it: [None], or a value within
    the bounds of its field. *)
Definition none_or (check : pyval -> bool) (v : pyval) : bool :=
  match v with
  | PyNone => true
  | _ => check v
  end.

Definition Advertisement_typed (ad : Advertisement) : bool :=
  none_or (is_str_between 1 200) (title ad)
  && none_or (is_str_between 1 2000) (description ad)
  && none_or is_float_gt0 (price ad)
  && none_or (is_str_between 1 100) (author ad).

(** Both bounds are supplied and [price_min > price_max]. *)
Definition bounds_inverted (q : SearchQuery) : bool :=
  match price_min q, price_max q with
  | Some lo, Some hi => Float.gt lo hi
  | _, _ => false
  end.

(** *** Inputs at the edges: bounds not greater than 0, accented letters *)

Module Edge.



(** the title criterion and the title of the accented-letter example: the
    capital E with acute accent (201) and the small one (233) *)
Definition capital_E_acute : string := String (ascii_of_nat 201) EmptyString.
Definition small_e_acute : string := String (ascii_of_nat 233) EmptyString.

(** a body whose title is the small letter, the store after its [POST],
    and [GET /advertisement?title=] the capital letter *)
Definition accented : AdvertisementCreate :=
  mk_AdvertisementCreate small_e_acute "Coffee" (Float.of_Z 3) "Carol".

Definition db_accented : Store :=
  snd (serve Sample.env1 (POST_advertisement accented) Dict.empty).

Definition by_capital_E_acute : SearchQuery :=
  mk_SearchQuery (Some capital_E_acute) None None None None None None.

End Edge.

(* ================================================================= *)
(** ** Facts about the dictionary *)

Section DictFacts.
Variable V : Type.
Implicit Types (d : Dict.t V) (k : string) (v : V).

Lemma contains_In_keys k d :
  Dict.contains k d = true <-> In k (Dict.keys d).
Proof.
  unfold Dict.contains, Dict.keys.
  rewrite existsb_exists, in_map_iff.
  split; intros [kv [H1 H2]].
  - apply String.eqb_eq in H2. exists kv. split; [now symmetry | assumption].
  - exists kv. split; [assumption | apply String.eqb_eq; now symmetry].
Qed.

Lemma getitem_contains k d :
  Dict.contains k d = match Dict.getitem k d with
                      | Some _ => true
                      | None => false
                      end.
Proof.
  induction d as [|[k' v'] d IH]; simpl; [reflexivity|].
  destruct (String.eqb k k'); simpl; [reflexivity | exact IH].
Qed.

Lemma getitem_Some_contains k d v :
  Dict.getitem k d = Some v -> Dict.contains k d = true.
Proof. intros H. rewrite getitem_contains, H. reflexivity. Qed.

Lemma contains_delitem k d :
  Dict.contains k (Dict.delitem k d) = false.
Proof.
  induction d as [|[k' v'] d IH]; simpl; [reflexivity|].
  destruct (String.eqb k k') eqn:E; simpl; [exact IH|].
  rewrite E. exact IH.
Qed.

Lemma getitem_setitem k v d :
  Dict.getitem k (Dict.setitem k v d) = Some v.
Proof.
  induction d as [|[k' v'] d IH]; simpl.
  - now rewrite String.eqb_refl.
  - destruct (String.eqb k k') eqn:E; simpl; rewrite E; [reflexivity | exact IH].
Qed.

Lemma getitem_setitem_other k k' v d :
  k' <> k -> Dict.getitem k' (Dict.setitem k v d) = Dict.getitem k' d.
Proof.
  intros Hne.
  induction d as [|[k0 v0] d IH]; simpl.
  - apply String.eqb_neq in Hne. now rewrite Hne.
  - destruct (String.eqb k k0) eqn:E; simpl.
    + apply String.eqb_eq in E. subst k0.
      apply String.eqb_neq in Hne. now rewrite Hne.
    + now rewrite IH.
Qed.

Lemma setitem_new k v d :
  Dict.contains k d = false -> Dict.setitem k v d = (d ++ [(k, v)])%list.
Proof.
  induction d as [|[k' v'] d IH]; simpl; [reflexivity|].
  destruct (String.eqb k k'); simpl; [discriminate|].
  intros H. now rewrite IH.
Qed.

Lemma setitem_same k v d :
  Dict.getitem k d = Some v -> Dict.setitem k v d = d.
Proof.
  induction d as [|[k' v'] d IH]; simpl; [discriminate|].
  destruct (String.eqb k k').
  - now intros [= ->].
  - intros H. now rewrite IH.
Qed.

Lemma keys_setitem_present k v d :
  Dict.contains k d = true -> Dict.keys (Dict.setitem k v d) = Dict.keys d.
Proof.
  induction d as [|[k' v'] d IH]; simpl; [discriminate|].
  destruct (String.eqb k k'); simpl; [reflexivity|].
  intros H. now rewrite IH.
Qed.

Lemma wf_setitem k v d : Dict.wf d -> Dict.wf (Dict.setitem k v d).
Proof.
  unfold Dict.wf. intros Hwf.
  destruct (Dict.contains k d) eqn:E.
  - now rewrite keys_setitem_present.
  - rewrite setitem_new by assumption.
    unfold Dict.keys in *. rewrite map_app. simpl.
    apply NoDup_app; [assumption | repeat constructor; intros [] | ].
    intros x Hin [Heq|[]]. subst x.
    assert (Dict.contains k d = true) by now apply contains_In_keys.
    congruence.
Qed.

Lemma wf_delitem k d : Dict.wf d -> Dict.wf (Dict.delitem k d).
Proof.
  unfold Dict.wf, Dict.keys, Dict.delitem.
  induction d as [|[k' v'] d IH]; simpl; intros Hwf; [constructor|].
  inversion Hwf as [|? ? Hnotin Hrest]; subst.
  destruct (String.eqb k k'); simpl; [now apply IH|].
  constructor; [|now apply IH].
  intros Hin. apply Hnotin.
  apply in_map_iff in Hin. destruct Hin as [kv [Hk Hin]].
  apply filter_In in Hin. apply in_map_iff. exists kv. tauto.
Qed.

Lemma In_setitem kv k v d :
  In kv (Dict.setitem k v d) -> In kv d \/ snd kv = v.
Proof.
  induction d as [|[k' v'] d IH]; simpl.
  - intros [<-|[]]. now right.
  - destruct (String.eqb k k'); simpl.
    + intros [<-|H]; [now right | left; now right].
    + intros [<-|H]; [left; now left|].
      destruct (IH H); [left; now right | now right].
Qed.

End DictFacts.

(* ================================================================= *)
(** ** Running the handlers *)

Ltac run_handler :=
  unfold create_advertisement, update_advertisement, delete_advertisement,
    get_advertisement, search_advertisements, health_check,
    bind, ret, raise, lift,
    db_contains, db_getitem, db_setitem, db_delitem, db_values in *;
  cbn [fst snd negb] in *.

Lemma get_absent (db : Store) k :
  Dict.contains k db = false ->
  get_advertisement k db = (Raise not_found, db).
Proof. intros H. run_handler. now rewrite H. Qed.

Lemma get_present (db : Store) k ad :
  Dict.getitem k db = Some ad ->
  get_advertisement k db = (Ok ad, db).
Proof.
  intros H. run_handler.
  rewrite (getitem_Some_contains _ _ H). cbn. now rewrite H.
Qed.

Lemma delete_absent (db : Store) k :
  Dict.contains k db = false ->
  delete_advertisement k db = (Raise not_found, db).
Proof. intros H. run_handler. now rewrite H. Qed.

Lemma delete_present (db : Store) k :
  Dict.contains k db = true ->
  delete_advertisement k db = (Ok tt, Dict.delitem k db).
Proof. intros H. run_handler. rewrite H. cbn. now rewrite H. Qed.

Lemma update_absent (db : Store) k u :
  Dict.contains k db = false ->
  update_advertisement k u db = (Raise not_found, db).
Proof. intros H. run_handler. now rewrite H. Qed.

Lemma update_present (db : Store) k u ad :
  Dict.getitem k db = Some ad ->
  let ad' :=
    fold_left (fun a fv => setattr a (fst fv) (snd fv))
      (dict_exclude_unset u) ad in
  update_advertisement k u db = (Ok ad', Dict.setitem k ad' db).
Proof.
  intros H. run_handler.
  rewrite (getitem_Some_contains _ _ H). cbn. now rewrite H.
Qed.

Lemma absent_iff (db : Store) k :
  Dict.contains k db = false <-> ~ In k (Dict.keys db).
Proof.
  rewrite <- contains_In_keys.
  destruct (Dict.contains k db); split; congruence.
Qed.

(** A handler that raised 404 found the key missing. *)
Lemma contains_cases (db : Store) k :
  {ad | Dict.getitem k db = Some ad /\ Dict.contains k db = true}
  + {Dict.contains k db = false}.
Proof.
  rewrite getitem_contains.
  destruct (Dict.getitem k db) as [ad|]; [left; exists ad|right]; auto.
Qed.

(** C3: get, update and delete fail with NotFound (status 404) exactly when
    the id is not a key of the store; a delete of a present id succeeds,
    and after a delete both a get and a second delete of that id fail with
    NotFound. *)
Theorem not_found_iff_absent :
  forall (db : Store) (k : string) (u : AdvertisementUpdate),
    (fst (get_advertisement k db) = Raise not_found
       <-> ~ In k (Dict.keys db))
    /\ (fst (update_advertisement k u db) = Raise not_found
       <-> ~ In k (Dict.keys db))
    /\ (fst (delete_advertisement k db) = Raise not_found
       <-> ~ In k (Dict.keys db))
    /\ (In k (Dict.keys db) ->
        delete_advertisement k db = (Ok tt, Dict.delitem k db))
    /\ fst (get_advertisement k (snd (delete_advertisement k db)))
       = Raise not_found
    /\ fst (delete_advertisement k (snd (delete_advertisement k db)))
       = Raise not_found.
Proof.
  intros db k u.
  rewrite <- !absent_iff.
  destruct (contains_cases db k) as [[ad [Hget Hin]]|Hout].
  - rewrite (get_present _ _ Hget), (update_present _ _ u Hget),
      (delete_present _ _ Hin).
    cbn [fst snd].
    rewrite get_absent, delete_absent by apply contains_delitem.
    rewrite Hin. cbn [fst].
    repeat split; try discriminate; try reflexivity.
  - rewrite (get_absent _ _ Hout), (update_absent _ _ u Hout),
      (delete_absent _ _ Hout).
    cbn [fst snd].
    rewrite (get_absent _ _ Hout), (delete_absent _ _ Hout), Hout.
    cbn [fst].
    repeat split; try reflexivity.
    intros Hin. apply contains_In_keys in Hin. congruence.
Qed.

(** The reading handlers hand the store back as it was. *)
Lemma get_keeps_store k (db : Store) :
  snd (get_advertisement k db) = db.
Proof.
  destruct (contains_cases db k) as [[ad [Hget _]]|Hout].
  - now rewrite (get_present _ _ Hget).
  - now rewrite (get_absent _ _ Hout).
Qed.

Lemma search_keeps_store q (db : Store) :
  snd (search_advertisements q db) = db.
Proof. run_handler. destruct (range_inverted q); reflexivity. Qed.

Lemma serve_get_keeps_store env k (db : Store) :
  snd (serve env (GET_advertisement k) db) = db.
Proof.
  unfold serve, bind, ret.
  pose proof (get_keeps_store k db) as H.
  destruct (get_advertisement k db) as [[ad|e] db']; exact H.
Qed.

Lemma serve_search_keeps_store env q (db : Store) :
  snd (serve env (GET_advertisements q) db) = db.
Proof.
  unfold serve, bind, ret, lift.
  destruct (validate_SearchQuery q); [|reflexivity].
  pose proof (search_keeps_store q db) as H.
  destruct (search_advertisements q db) as [[ads|e] db']; exact H.
Qed.

(** C10: get, search and health leave the store as it was, whatever the id,
    the criteria or the stored records, and whether they return or raise;
    the same holds for their routes, where request validation runs first. *)
Theorem read_only_handlers :
  forall (db : Store) (env : Env) (k : string) (q : SearchQuery),
    snd (get_advertisement k db) = db
    /\ snd (search_advertisements q db) = db
    /\ snd (health_check env db) = db
    /\ snd (serve env (GET_advertisement k) db) = db
    /\ snd (serve env (GET_advertisements q) db) = db
    /\ snd (serve env GET_health db) = db.
Proof.
  intros db env k q.
  repeat split.
  - apply get_keeps_store.
  - apply search_keeps_store.
  - apply serve_get_keeps_store.
  - apply serve_search_keeps_store.
Qed.

(** A handler that raises leaves the store as it found it. *)
Lemma create_raise_keeps_store env c (db : Store) e :
  fst (create_advertisement env c db) = Raise e ->
  snd (create_advertisement env c db) = db.
Proof.
  run_handler.
  destruct (new_Advertisement (uuid4 env) (utcnow env) c); cbn [fst snd];
    [discriminate | reflexivity].
Qed.

Lemma update_raise_keeps_store k u (db : Store) e :
  fst (update_advertisement k u db) = Raise e ->
  snd (update_advertisement k u db) = db.
Proof.
  destruct (contains_cases db k) as [[ad [Hget _]]|Hout].
  - rewrite (update_present _ _ u Hget). discriminate.
  - now rewrite (update_absent _ _ u Hout).
Qed.

Lemma delete_raise_keeps_store k (db : Store) e :
  fst (delete_advertisement k db) = Raise e ->
  snd (delete_advertisement k db) = db.
Proof.
  destruct (Dict.contains k db) eqn:E.
  - rewrite (delete_present _ _ E). discriminate.
  - now rewrite (delete_absent _ _ E).
Qed.

(** C6: whenever a request fails, with a validation error, NotFound,
    InvalidRange or any other exception, the store after the request is the
    store before it. *)
Theorem failed_request_keeps_store :
  forall (env : Env) (req : request) (db : Store) (e : exn),
    fst (serve env req db) = Raise e ->
    snd (serve env req db) = db.
Proof.
  intros env [c|k u|k|k|q|] db e; unfold serve, bind, ret, lift.
  - destruct (validate_AdvertisementCreate c); [|reflexivity].
    pose proof (create_raise_keeps_store env c db) as H.
    destruct (create_advertisement env c db) as [[ad|e'] db']; cbn [fst snd] in *;
      [discriminate | intros _; now apply (H e')].
  - destruct (validate_AdvertisementUpdate u); [|reflexivity].
    pose proof (update_raise_keeps_store k u db) as H.
    destruct (update_advertisement k u db) as [[ad|e'] db']; cbn [fst snd] in *;
      [discriminate | intros _; now apply (H e')].
  - pose proof (delete_raise_keeps_store k db) as H.
    destruct (delete_advertisement k db) as [[[]|e'] db']; cbn [fst snd] in *;
      [discriminate | intros _; now apply (H e')].
  - intros _. apply (serve_get_keeps_store env k db).
  - intros _. apply (serve_search_keeps_store env q db).
  - discriminate.
Qed.

(* ================================================================= *)
(** ** Partial updates *)

Lemma apply_update_data u ad :
  fold_left (fun a fv => setattr a (fst fv) (snd fv))
    (dict_exclude_unset u) ad
  = mk_Advertisement (id ad)
      (supplied_or of_opt_str (u_title u) (title ad))
      (supplied_or of_opt_str (u_description u) (description ad))
      (supplied_or of_opt_float (u_price u) (price ad))
      (supplied_or of_opt_str (u_author u) (author ad))
      (created_at ad).
Proof.
  destruct u as [[t|] [d|] [p|] [a|]], ad; reflexivity.
Qed.

(** C2: an update of a stored record replaces exactly the fields the
    partial update supplies; id, created_at and every field that is not
    supplied keep their values, every other record of the store is
    untouched, and the empty partial update returns the record, and leaves
    the store, unchanged. *)
Theorem update_changes_only_supplied_fields :
  forall (db : Store) (k : string) (u : AdvertisementUpdate)
         (ad : Advertisement),
    Dict.getitem k db = Some ad ->
    exists ad',
      update_advertisement k u db = (Ok ad', Dict.setitem k ad' db)
      /\ id ad' = id ad
      /\ created_at ad' = created_at ad
      /\ title ad' = supplied_or of_opt_str (u_title u) (title ad)
      /\ description ad'
         = supplied_or of_opt_str (u_description u) (description ad)
      /\ price ad' = supplied_or of_opt_float (u_price u) (price ad)
      /\ author ad' = supplied_or of_opt_str (u_author u) (author ad)
      /\ (forall k', k' <> k ->
            Dict.getitem k' (Dict.setitem k ad' db) = Dict.getitem k' db)
      /\ (u = empty_update -> ad' = ad /\ Dict.setitem k ad' db = db).
Proof.
  intros db k u ad Hget.
  eexists. split; [apply (update_present _ _ u Hget)|].
  rewrite apply_update_data. cbn [id created_at title description price author].
  repeat split.
  - intros k' Hne. now apply getitem_setitem_other.
  - subst u. now destruct ad.
  - subst u. cbn. apply setitem_same. now destruct ad.
Qed.

(* ================================================================= *)
(** ** Search *)

Lemma for_each_no_criteria ads acc :
  for_each Sample.no_criteria ads acc = Ok (acc ++ ads)%list.
Proof.
  revert acc. induction ads as [|ad ads IH]; intros acc; cbn.
  - now rewrite app_nil_r.
  - rewrite IH. now rewrite <- app_assoc.
Qed.

(** C8: a search with every criterion absent returns the values of the
    store, all of them and nothing else, in the store's order; so does the
    route, whose validation accepts the empty query. *)
Theorem search_without_criteria_returns_all :
  forall (env : Env) (db : Store),
    search_advertisements Sample.no_criteria db = (Ok (Dict.values db), db)
    /\ serve env (GET_advertisements Sample.no_criteria) db
       = (Ok (advertisements (Dict.values db)), db).
Proof.
  intros env db.
  assert (H : search_advertisements Sample.no_criteria db
              = (Ok (Dict.values db), db)).
  { run_handler. cbn. now rewrite for_each_no_criteria. }
  split; [exact H|].
  assert (Hv : validate_SearchQuery Sample.no_criteria = Ok tt)
    by reflexivity.
  unfold serve, bind, lift, ret. now rewrite Hv, H.
Qed.

(** *** Validated criteria *)

Lemma validated_ok error checks :
  validated error checks = Ok tt -> forallb snd checks = true.
Proof.
  unfold validated, failures.
  induction checks as [|[loc []] checks IH]; cbn; [reflexivity | exact IH |].
  discriminate.
Qed.

Lemma validated_raise error checks e :
  validated error checks = Raise e -> exists locs, e = error locs.
Proof.
  unfold validated.
  destruct (failures checks) as [|loc locs]; [discriminate|].
  intros [= <-]. now eexists.
Qed.

Ltac split_checks H :=
  cbn [forallb snd] in H;
  repeat match type of H with
         | (_ && _) = true =>
             let H1 := fresh "H" in
             apply andb_prop in H; destruct H as [H1 H]
         end.

Lemma validate_SearchQuery_ok q :
  validate_SearchQuery q = Ok tt ->
  optional (Str.len_at_least 1) (q_title q) = true
  /\ optional (Str.len_at_least 1) (q_description q) = true
  /\ optional (Str.len_at_least 1) (q_author q) = true
  /\ optional gt0 (price_min q) = true
  /\ optional gt0 (price_max q) = true.
Proof.
  intros H. apply validated_ok in H. split_checks H. auto.
Qed.

Lemma validate_SearchQuery_raise q e :
  validate_SearchQuery q = Raise e ->
  exists locs, e = RequestValidationError locs.
Proof. apply validated_raise. Qed.

Lemma gt0_not_zero x : gt0 x = true -> SFeqb x Float.zero = false.
Proof. destruct x as [[]|[]| |[] m e]; cbn; congruence. Qed.

Lemma gt0_truth x : gt0 x = true -> truth x = true.
Proof.
  intros H. unfold truth, float_PyBool. now rewrite gt0_not_zero.
Qed.

Lemma gt0_not_nan x : gt0 x = true -> Float.is_nan x = false.
Proof. destruct x as [[]|[]| |[] m e]; cbn; congruence. Qed.

Lemma nonempty_truth (s : string) : Str.len_at_least 1 s = true -> truth s = true.
Proof. destruct s; cbn; congruence. Qed.

Lemma optional_truth {A} `{PyBool A} (check : A -> bool) (c : option A) :
  (forall v, check v = true -> truth v = true) ->
  optional check c = true -> truth c = supplied c.
Proof. intros Hc. destruct c as [v|]; cbn; [apply Hc | reflexivity]. Qed.

(** The loop raises nothing but [TypeError] and [AttributeError]. *)
Lemma guard_raise {A} `{PyBool A} (c : option A) test e :
  (forall v e', test v = Raise e' -> raised_by_scan e') ->
  guard c test = Raise e -> raised_by_scan e.
Proof.
  intros Ht. unfold guard.
  destruct c as [v|]; [|discriminate].
  destruct (truth v); [apply Ht | discriminate].
Qed.

Lemma lower_not_in_raise t v e :
  lower_not_in t v = Raise e -> raised_by_scan e.
Proof. destruct v; cbn; intros [= <-]; now right. Qed.

Lemma py_lt_raise v x e : py_lt v x = Raise e -> raised_by_scan e.
Proof. destruct v; cbn; intros [= <-]; now left. Qed.

Lemma py_gt_raise v x e : py_gt v x = Raise e -> raised_by_scan e.
Proof. destruct v; cbn; intros [= <-]; now left. Qed.

Lemma datetime_lt_raise a b e :
  datetime_lt a b = Raise e -> raised_by_scan e.
Proof.
  unfold datetime_lt.
  destruct (utcoffset a), (utcoffset b); intros [= <-]; now left.
Qed.

Ltac guard_step lem :=
  match goal with
  | |- rbind (guard ?c ?t) _ = Raise _ -> _ =>
      let E := fresh "E" in
      destruct (guard c t) as [[]|] eqn:E; cbn [rbind];
      [ discriminate
      |
      | intros [= <-]; apply (guard_raise _ _ lem E) ]
  end.

Lemma loop_body_raise q ad acc e :
  loop_body q ad acc = Raise e -> raised_by_scan e.
Proof.
  unfold loop_body.
  guard_step (fun t => @lower_not_in_raise t (title ad)).
  guard_step (fun t => @lower_not_in_raise t (description ad)).
  guard_step (fun t => @lower_not_in_raise t (author ad)).
  guard_step (fun lo => @py_lt_raise (price ad) lo).
  guard_step (fun hi => @py_gt_raise (price ad) hi).
  guard_step (fun t => @datetime_lt_raise (created_at ad) t).
  guard_step (fun t => @datetime_lt_raise t (created_at ad)).
  discriminate.
Qed.

Lemma for_each_raise q ads acc e :
  for_each q ads acc = Raise e -> raised_by_scan e.
Proof.
  revert acc. induction ads as [|ad ads IH]; intros acc; cbn; [discriminate|].
  destruct (loop_body q ad acc) as [acc'|e'] eqn:E; cbn [rbind].
  - apply IH.
  - intros [= <-]. apply (loop_body_raise _ _ _ E).
Qed.



(** C9: the route of search rejects, with a validation error and before
    the handler runs, a query whose price_min or price_max is not greater
    than 0 or whose title, description or author is the empty string; a
    query is handed to the handler only after validation, and then no
    supplied bound equals 0 and each criterion is true in Python's sense
    exactly when it is supplied, so no truth test of the handler takes a
    supplied criterion for an absent one. *)
Theorem search_criteria_validated_before_handler :
  forall (env : Env) (db : Store) (q : SearchQuery),
    ((exists x, price_min q = Some x /\ Float.gt x Float.zero = false)
     \/ (exists x, price_max q = Some x /\ Float.gt x Float.zero = false)
     \/ q_title q = Some ""
     \/ q_description q = Some ""
     \/ q_author q = Some "" ->
     exists locs,
       validate_SearchQuery q = Raise (RequestValidationError locs)
       /\ serve env (GET_advertisements q) db
          = (Raise (RequestValidationError locs), db))
    /\ (forall e,
          validate_SearchQuery q = Raise e ->
          serve env (GET_advertisements q) db = (Raise e, db))
    /\ (validate_SearchQuery q = Ok tt ->
        (forall x, price_min q = Some x -> SFeqb x Float.zero = false)
        /\ (forall x, price_max q = Some x -> SFeqb x Float.zero = false)
        /\ q_title q <> Some "" /\ q_description q <> Some ""
        /\ q_author q <> Some ""
        /\ truth (q_title q) = supplied (q_title q)
        /\ truth (q_description q) = supplied (q_description q)
        /\ truth (q_author q) = supplied (q_author q)
        /\ truth (price_min q) = supplied (price_min q)
        /\ truth (price_max q) = supplied (price_max q)
        /\ truth (created_after q) = supplied (created_after q)
        /\ truth (created_before q) = supplied (created_before q)).
Proof.
  intros env db q.
  assert (Hserve : forall e, validate_SearchQuery q = Raise e ->
                     serve env (GET_advertisements q) db = (Raise e, db)).
  { intros e He. unfold serve, bind, lift. now rewrite He. }
  split; [|split; [exact Hserve|]].
  - intros Hbad.
    assert (Hv : exists locs,
               validate_SearchQuery q = Raise (RequestValidationError locs)).
    { destruct (validate_SearchQuery q) as [[]|e] eqn:E.
      - exfalso.
        destruct (validate_SearchQuery_ok _ E) as (Ht & Hd & Ha & Hmin & Hmax).
        destruct Hbad as [(x & Hx & Hgt)|[(x & Hx & Hgt)|[H|[H|H]]]].
        + rewrite Hx in Hmin. cbn in Hmin. unfold gt0 in Hmin. congruence.
        + rewrite Hx in Hmax. cbn in Hmax. unfold gt0 in Hmax. congruence.
        + rewrite H in Ht. discriminate.
        + rewrite H in Hd. discriminate.
        + rewrite H in Ha. discriminate.
      - destruct (validate_SearchQuery_raise _ E) as [loc ->].
        now exists loc. }
    destruct Hv as [loc Hv]. exists loc. split; [exact Hv | now apply Hserve].
  - intros Hv.
    destruct (validate_SearchQuery_ok _ Hv) as (Ht & Hd & Ha & Hmin & Hmax).
    repeat match goal with |- _ /\ _ => split end.
    + intros x Hx. rewrite Hx in Hmin. now apply gt0_not_zero.
    + intros x Hx. rewrite Hx in Hmax. now apply gt0_not_zero.
    + intros H. rewrite H in Ht. discriminate.
    + intros H. rewrite H in Hd. discriminate.
    + intros H. rewrite H in Ha. discriminate.
    + apply (optional_truth _ _ nonempty_truth Ht).
    + apply (optional_truth _ _ nonempty_truth Hd).
    + apply (optional_truth _ _ nonempty_truth Ha).
    + apply (optional_truth _ _ gt0_truth Hmin).
    + apply (optional_truth _ _ gt0_truth Hmax).
    + now destruct (created_after q).
    + now destruct (created_before q).
Qed.

(** *** Float comparisons away from NaN *)

Lemma SFcompare_antisym (x y : float) :
  SFcompare y x = option_map CompOpp (SFcompare x y).
Proof.
  destruct x as [sx|sx| |sx mx ex], y as [sy|sy| |sy my ey]; cbn;
    try reflexivity;
    try (destruct sx; reflexivity); try (destruct sy; reflexivity);
    try (destruct sx, sy; reflexivity).
  destruct sx, sy; cbn; try reflexivity;
    rewrite (Z.compare_antisym ex ey);
    destruct (ex ?= ey)%Z; cbn; try reflexivity;
    rewrite ?CompOpp_involutive;
    first [ rewrite (Pos.compare_cont_antisym mx my Eq)
          | rewrite (Pos.compare_cont_antisym my mx Eq) ];
    reflexivity.
Qed.

Lemma lt_not_ge (x y : float) :
  Float.is_nan x = false -> Float.is_nan y = false ->
  SFltb x y = negb (SFleb y x).
Proof.
  intros Hx Hy. unfold SFltb, SFleb.
  rewrite (SFcompare_antisym x y).
  destruct (SFcompare x y) as [[]|] eqn:E; cbn; try reflexivity.
  destruct x as [?|?| |? ? ?], y as [?|?| |? ? ?]; cbn in *; discriminate.
Qed.

(** *** What each guard of the loop computes on validated input *)

Lemma guard_str c s :
  optional (Str.len_at_least 1) c = true ->
  guard c (fun t => lower_not_in t (PyStr s))
  = Ok (negb (str_matches c (PyStr s))).
Proof.
  destruct c as [t|]; cbn; [|reflexivity].
  intros H. now rewrite (nonempty_truth _ H).
Qed.

Lemma guard_min c p :
  optional gt0 c = true -> Float.is_nan p = false ->
  guard c (fun lo => py_lt (PyFloat p) lo)
  = Ok (negb (price_at_least c (PyFloat p))).
Proof.
  destruct c as [lo|]; cbn; [|reflexivity].
  intros H Hp. rewrite (gt0_truth _ H).
  unfold Float.lt, Float.ge.
  rewrite (lt_not_ge p lo Hp (gt0_not_nan _ H)).
  reflexivity.
Qed.

Lemma guard_max c p :
  optional gt0 c = true -> Float.is_nan p = false ->
  guard c (fun hi => py_gt (PyFloat p) hi)
  = Ok (negb (price_at_most c (PyFloat p))).
Proof.
  destruct c as [hi|]; cbn; [|reflexivity].
  intros H Hp. rewrite (gt0_truth _ H).
  unfold Float.gt, Float.le.
  rewrite (lt_not_ge hi p (gt0_not_nan _ H) Hp).
  reflexivity.
Qed.

Lemma guard_after c t :
  optional is_naive c = true -> is_naive t = true ->
  guard c (fun a => datetime_lt t a) = Ok (negb (not_before c t)).
Proof.
  destruct c as [a|]; cbn; [|reflexivity].
  unfold is_naive, datetime_lt.
  destruct (utcoffset a), (utcoffset t); try discriminate.
  intros _ _. now rewrite Z.leb_antisym, negb_involutive.
Qed.

Lemma guard_before c t :
  optional is_naive c = true -> is_naive t = true ->
  guard c (fun b => datetime_gt t b) = Ok (negb (not_after c t)).
Proof.
  destruct c as [b|]; cbn; [|reflexivity].
  unfold is_naive, datetime_gt, datetime_lt.
  destruct (utcoffset b), (utcoffset t); try discriminate.
  intros _ _. now rewrite Z.leb_antisym, negb_involutive.
Qed.

Section WellFormedSearch.
Variable q : SearchQuery.
Hypothesis q_valid : validate_SearchQuery q = Ok tt.
Hypothesis q_naive : naive_criteria q = true.

Lemma loop_body_filters ad acc :
  Advertisement_ok ad = true -> is_naive (created_at ad) = true ->
  loop_body q ad acc
  = Ok (if satisfies q ad then (acc ++ [ad])%list else acc).
Proof.
  intros Hok Hnaive.
  destruct (validate_SearchQuery_ok _ q_valid)
    as (Ht & Hd & Ha & Hmin & Hmax).
  destruct (andb_prop _ _ q_naive) as [Hafter Hbefore].
  unfold Advertisement_ok in Hok.
  destruct ad as [i t d p a c]; cbn [title description price author
                                     created_at] in *.
  destruct t as [|t|]; try discriminate Hok.
  destruct d as [|d|]; try (now rewrite ?andb_false_r in Hok).
  destruct p as [| |p]; try (now rewrite ?andb_false_r in Hok).
  destruct a as [|a|]; try (now rewrite ?andb_false_r in Hok).
  assert (Hp : Float.is_nan p = false).
  { apply gt0_not_nan.
    cbn in Hok. apply andb_prop in Hok as [Hok _].
    now apply andb_prop in Hok as [_ Hok]. }
  unfold loop_body, satisfies;
    cbn [title description price author created_at].
  rewrite (@guard_str _ t Ht), (@guard_str _ d Hd), (@guard_str _ a Ha),
    (@guard_min _ p Hmin Hp), (@guard_max _ p Hmax Hp),
    (@guard_after _ c Hafter Hnaive), (@guard_before _ c Hbefore Hnaive).
  cbn [rbind].
  repeat match goal with
         | |- context [negb ?b] =>
             destruct b; cbn [negb andb]; try reflexivity
         end.
Qed.

Lemma for_each_filters ads acc :
  Forall (fun ad => Advertisement_ok ad = true) ads ->
  Forall (fun ad => is_naive (created_at ad) = true) ads ->
  for_each q ads acc = Ok (acc ++ filter (satisfies q) ads)%list.
Proof.
  intros Hok. revert acc.
  induction Hok as [|ad ads Had _ IH]; intros acc Hnaive; cbn.
  - now rewrite app_nil_r.
  - inversion Hnaive as [|? ? Hn Hns]; subst.
    rewrite (@loop_body_filters ad acc Had Hn). cbn [rbind].
    rewrite (IH _ Hns).
    destruct (satisfies q ad); [now rewrite <- app_assoc | reflexivity].
Qed.

(** On validated criteria the handler's test of the range, truth tests
    included, is the comparison of the two supplied bounds. *)
Lemma range_inverted_validated : range_inverted q = bounds_inverted q.
Proof.
  destruct (validate_SearchQuery_ok _ q_valid) as (_ & _ & _ & Hmin & Hmax).
  unfold range_inverted, bounds_inverted.
  destruct (price_min q) as [lo|], (price_max q) as [hi|]; try reflexivity.
  cbn in Hmin, Hmax.
  now rewrite (gt0_truth _ Hmin), (gt0_truth _ Hmax).
Qed.

(** On a store of well-formed records, and for validated criteria with
    naive datetimes, search fails with InvalidRange when both bounds are
    supplied and price_min > price_max, and otherwise returns the values of
    the store restricted to the records that satisfy every supplied
    criterion, in the store's order. *)
Lemma search_on_well_formed_input (db : Store) :
  Forall (fun ad => Advertisement_ok ad = true) (Dict.values db) ->
  Forall (fun ad => is_naive (created_at ad) = true) (Dict.values db) ->
  search_advertisements q db
  = (if bounds_inverted q then Raise invalid_range
     else Ok (filter (satisfies q) (Dict.values db)), db).
Proof.
  intros Hok Hnaive. rewrite <- range_inverted_validated. run_handler.
  destruct (range_inverted q); [reflexivity|].
  now rewrite (@for_each_filters _ [] Hok Hnaive).
Qed.

End WellFormedSearch.

(* ================================================================= *)
(** ** Creation from a validated body *)

Lemma validate_AdvertisementCreate_ok c :
  validate_AdvertisementCreate c = Ok tt ->
  Str.len_between 1 200 (c_title c) = true
  /\ Str.len_between 1 2000 (c_description c) = true
  /\ gt0 (c_price c) = true
  /\ Str.len_between 1 100 (c_author c) = true.
Proof.
  intros H. apply validated_ok in H. split_checks H. auto.
Qed.

Lemma gt0_not_le_zero x : gt0 x = true -> Float.le x Float.zero = false.
Proof. destruct x as [[]|[]| |[] m e]; cbn; congruence. Qed.

Lemma new_Advertisement_valid env c :
  validate_AdvertisementCreate c = Ok tt ->
  new_Advertisement (uuid4 env) (utcnow env) c = Ok (created env c).
Proof.
  intros Hv.
  destruct (validate_AdvertisementCreate_ok _ Hv) as (Ht & Hd & Hp & Ha).
  unfold new_Advertisement, validate_price.
  rewrite Ht, Hd, Hp, Ha, (gt0_not_le_zero _ Hp). reflexivity.
Qed.

Lemma create_valid env c (db : Store) :
  validate_AdvertisementCreate c = Ok tt ->
  create_advertisement env c db
  = (Ok (created env c),
     Dict.setitem (str_of_UUID (uuid4 env)) (created env c) db).
Proof.
  intros Hv. run_handler. now rewrite (new_Advertisement_valid env _ Hv).
Qed.

Lemma keyed_by_id_ids (db : Store) :
  keyed_by_id db ->
  Dict.keys db = map str_of_UUID (map id (Dict.values db)).
Proof.
  unfold keyed_by_id, Dict.keys, Dict.values.
  induction 1 as [|kv db Hkv _ IH]; cbn; [reflexivity|].
  now rewrite Hkv, IH.
Qed.

(* ================================================================= *)
(** ** Reachable stores *)

Lemma validate_AdvertisementUpdate_ok u :
  validate_AdvertisementUpdate u = Ok tt ->
  unset_or (Str.len_between 1 200) (u_title u) = true
  /\ unset_or (Str.len_between 1 2000) (u_description u) = true
  /\ unset_or gt0 (u_price u) = true
  /\ unset_or (Str.len_between 1 100) (u_author u) = true.
Proof.
  intros H. apply validated_ok in H. split_checks H. auto.
Qed.

Lemma supplied_str_ok lo hi o old :
  unset_or (Str.len_between lo hi) o = true -> not_null o = true ->
  is_str_between lo hi old = true ->
  is_str_between lo hi (supplied_or of_opt_str o old) = true.
Proof. destruct o as [[s|]|]; cbn; congruence. Qed.

Lemma supplied_float_ok o old :
  unset_or gt0 o = true -> not_null o = true ->
  is_float_gt0 old = true ->
  is_float_gt0 (supplied_or of_opt_float o old) = true.
Proof. destruct o as [[x|]|]; cbn; congruence. Qed.

Lemma getitem_In {V} k (d : Dict.t V) v :
  Dict.getitem k d = Some v -> In (k, v) d.
Proof.
  induction d as [|[k' v'] d IH]; cbn; [discriminate|].
  destruct (String.eqb k k') eqn:E.
  - apply String.eqb_eq in E. intros [= ->]. left. now subst.
  - intros H. right. now apply IH.
Qed.

Lemma Forall_setitem {V} (P : string * V -> Prop) k v (d : Dict.t V) :
  Forall P d -> P (k, v) -> Forall P (Dict.setitem k v d).
Proof.
  intros Hd Hkv.
  induction Hd as [|[k' v'] d Hhd Htl IH]; cbn.
  - now constructor.
  - destruct (String.eqb k k') eqn:E.
    + apply String.eqb_eq in E. subst k'. now constructor.
    + now constructor.
Qed.

Lemma Forall_delitem {V} (P : string * V -> Prop) k (d : Dict.t V) :
  Forall P d -> Forall P (Dict.delitem k d).
Proof.
  intros Hd. apply Forall_forall. intros kv Hin.
  apply filter_In in Hin. destruct Hin as [Hin _].
  revert kv Hin. now apply Forall_forall.
Qed.

Lemma Forall_values_setitem {V} (Q : V -> Prop) k v (d : Dict.t V) :
  Forall Q (Dict.values d) -> Q v -> Forall Q (Dict.values (Dict.setitem k v d)).
Proof.
  intros Hd Hv.
  induction d as [|[k' v'] d IH]; cbn in *.
  - now constructor.
  - inversion Hd as [|? ? Hhd Htl]; subst.
    destruct (String.eqb k k'); cbn; constructor; auto.
Qed.

Lemma Forall_values_delitem {V} (Q : V -> Prop) k (d : Dict.t V) :
  Forall Q (Dict.values d) -> Forall Q (Dict.values (Dict.delitem k d)).
Proof.
  intros Hd.
  induction d as [|[k' v'] d IH]; cbn in *; [constructor|].
  inversion Hd as [|? ? Hhd Htl]; subst.
  destruct (String.eqb k k'); cbn; [|constructor]; auto.
Qed.

Lemma Forall_values_In {V} (Q : V -> Prop) k v (d : Dict.t V) :
  Forall Q (Dict.values d) -> In (k, v) d -> Q v.
Proof.
  intros Hd Hin. rewrite Forall_forall in Hd. apply Hd.
  unfold Dict.values. now apply (in_map snd) in Hin.
Qed.

Lemma store_ok_setitem (db : Store) k ad :
  store_ok db ->
  k = str_of_UUID (id ad) ->
  Advertisement_ok ad = true ->
  is_naive (created_at ad) = true ->
  store_ok (Dict.setitem k ad db).
Proof.
  intros (Hwf & Hkey & Hok & Hnaive) Hk Had Hn. unfold store_ok.
  repeat match goal with |- _ /\ _ => split end.
  - now apply wf_setitem.
  - now apply Forall_setitem.
  - now apply Forall_values_setitem.
  - now apply Forall_values_setitem.
Qed.

Lemma store_ok_delitem (db : Store) k :
  store_ok db -> store_ok (Dict.delitem k db).
Proof.
  intros (Hwf & Hkey & Hok & Hnaive). unfold store_ok.
  repeat match goal with |- _ /\ _ => split end.
  - now apply wf_delitem.
  - now apply Forall_delitem.
  - now apply Forall_values_delitem.
  - now apply Forall_values_delitem.
Qed.

Lemma store_ok_getitem (db : Store) k ad :
  store_ok db -> Dict.getitem k db = Some ad ->
  k = str_of_UUID (id ad)
  /\ Advertisement_ok ad = true
  /\ is_naive (created_at ad) = true.
Proof.
  intros (_ & Hkey & Hok & Hnaive) Hget.
  apply getitem_In in Hget.
  unfold keyed_by_id in Hkey. rewrite Forall_forall in Hkey.
  repeat match goal with |- _ /\ _ => split end.
  - apply (Hkey _ Hget).
  - apply (Forall_values_In _ _ _ Hok Hget).
  - apply (Forall_values_In _ _ _ Hnaive Hget).
Qed.

Lemma created_ok env c :
  validate_AdvertisementCreate c = Ok tt ->
  Advertisement_ok (created env c) = true.
Proof.
  intros Hv.
  destruct (validate_AdvertisementCreate_ok _ Hv) as (Ht & Hd & Hp & Ha).
  unfold Advertisement_ok, created. cbn. now rewrite Ht, Hd, Hp, Ha.
Qed.

Lemma updated_ok u ad :
  validate_AdvertisementUpdate u = Ok tt ->
  no_null (PATCH_advertisement "" u) = true ->
  Advertisement_ok ad = true ->
  Advertisement_ok
    (fold_left (fun a fv => setattr a (fst fv) (snd fv))
       (dict_exclude_unset u) ad) = true.
Proof.
  intros Hv Hnn Hok.
  destruct (validate_AdvertisementUpdate_ok _ Hv) as (Ht & Hd & Hp & Ha).
  cbn in Hnn.
  apply andb_prop in Hnn as [Hnn Hna].
  apply andb_prop in Hnn as [Hnn Hnp].
  apply andb_prop in Hnn as [Hnt Hnd].
  unfold Advertisement_ok in Hok.
  apply andb_prop in Hok as [Hok Hoa].
  apply andb_prop in Hok as [Hok Hop].
  apply andb_prop in Hok as [Hot Hod].
  rewrite apply_update_data. unfold Advertisement_ok. cbn.
  now rewrite (supplied_str_ok _ _ _ _ Ht Hnt Hot),
    (supplied_str_ok _ _ _ _ Hd Hnd Hod),
    (supplied_float_ok _ _ Hp Hnp Hop),
    (supplied_str_ok _ _ _ _ Ha Hna Hoa).
Qed.

Lemma serve_no_null_keeps_store_ok env req (db : Store) :
  store_ok db -> env_ok env = true -> no_null req = true ->
  store_ok (snd (serve env req db)).
Proof.
  intros Hdb Henv Hnn.
  destruct req as [c|k u|k|k|q|].
  - unfold serve, bind, lift, ret.
    destruct (validate_AdvertisementCreate c) as [[]|e] eqn:Hv; [|exact Hdb].
    rewrite (@create_valid env c db Hv). cbn [snd].
    apply store_ok_setitem; try assumption; try reflexivity.
    now apply created_ok.
  - unfold serve, bind, lift, ret.
    destruct (validate_AdvertisementUpdate u) as [[]|e] eqn:Hv; [|exact Hdb].
    destruct (contains_cases db k) as [[ad [Hget _]]|Hout].
    + rewrite (update_present _ _ u Hget). cbn [snd].
      destruct (@store_ok_getitem db k ad Hdb Hget) as (Hk & Hok & Hn).
      apply store_ok_setitem; try assumption.
      * rewrite apply_update_data. exact Hk.
      * now apply updated_ok.
      * rewrite apply_update_data. exact Hn.
    + now rewrite (update_absent _ _ u Hout).
  - unfold serve, bind, ret.
    destruct (Dict.contains k db) eqn:E.
    + rewrite (delete_present _ _ E). cbn [snd]. now apply store_ok_delitem.
    + now rewrite (delete_absent _ _ E).
  - now rewrite serve_get_keeps_store.
  - now rewrite serve_search_keeps_store.
  - exact Hdb.
Qed.

(** As long as no update sets a field to [null], every record of every
    reachable store meets the bounds of the [Advertisement] model, the
    entries are filed under their ids, and no two records share an id. *)
Lemma bounds_hold_without_null_updates (db : Store) :
  reachable_no_null db ->
  store_ok db /\ NoDup (map id (Dict.values db)).
Proof.
  intros Hr.
  assert (Hok : store_ok db).
  { induction Hr as [|env req db _ IH Henv Hnn].
    - repeat split; constructor.
    - now apply serve_no_null_keeps_store_ok. }
  split; [exact Hok|].
  destruct Hok as (Hwf & Hkey & _).
  unfold Dict.wf in Hwf. rewrite (keyed_by_id_ids Hkey) in Hwf.
  now apply NoDup_map_inv in Hwf.
Qed.

(** In every reachable store no key occurs twice and every entry is filed
    under the text of its id: an update never assigns [id]. *)
Lemma reachable_keyed_by_id (db : Store) :
  reachable db -> Dict.wf db /\ keyed_by_id db.
Proof.
  induction 1 as [|env req db _ [Hwf Hkey]]; [split; constructor|].
  destruct req as [c|k u|k|k|q|].
  - unfold serve, bind, lift, ret.
    destruct (validate_AdvertisementCreate c) as [[]|e] eqn:Hv; [|now split].
    rewrite (@create_valid env c db Hv). cbn [snd]. split.
    + now apply wf_setitem.
    + now apply Forall_setitem.
  - unfold serve, bind, lift, ret.
    destruct (validate_AdvertisementUpdate u) as [[]|e] eqn:Hv; [|now split].
    destruct (contains_cases db k) as [[ad [Hget _]]|Hout].
    + rewrite (update_present _ _ u Hget). cbn [snd]. split.
      * now apply wf_setitem.
      * apply Forall_setitem; [assumption|].
        rewrite apply_update_data. cbn [fst snd id].
        unfold keyed_by_id in Hkey. rewrite Forall_forall in Hkey.
        apply (Hkey _ (getitem_In _ _ Hget)).
    + now rewrite (update_absent _ _ u Hout).
  - unfold serve, bind, ret.
    destruct (Dict.contains k db) eqn:E.
    + rewrite (delete_present _ _ E). cbn [snd]. split.
      * now apply wf_delitem.
      * now apply Forall_delitem.
    + now rewrite (delete_absent _ _ E).
  - now rewrite serve_get_keeps_store.
  - now rewrite serve_search_keeps_store.
  - now split.
Qed.

(** C4 (amended): for a validated body, create succeeds; the record it
    returns carries the id answered by uuid4, the timestamp answered by
    utcnow and the four fields of the body; it is stored under the text of
    its id, and a get by that id returns it field for field.  When the
    answered id is not yet a key, the record is appended, every stored
    record stays, and, in a reachable store, the id differs from the id of
    every stored record.  The handler itself makes no check that the id is
    new. *)
Theorem create_then_get_returns_record :
  forall (env : Env) (db : Store) (c : AdvertisementCreate),
    validate_AdvertisementCreate c = Ok tt ->
    let ad := created env c in
    let key := str_of_UUID (uuid4 env) in
    let db' := Dict.setitem key ad db in
    create_advertisement env c db = (Ok ad, db')
    /\ serve env (POST_advertisement c) db = (Ok (one_advertisement ad), db')
    /\ get_advertisement (str_of_UUID (id ad)) db' = (Ok ad, db')
    /\ (Dict.contains key db = false ->
        db' = (db ++ [(key, ad)])%list
        /\ (reachable db -> ~ In (id ad) (map id (Dict.values db)))).
Proof.
  intros env db c Hv ad key db'.
  assert (Hc : create_advertisement env c db = (Ok ad, db'))
    by now apply create_valid.
  repeat match goal with |- _ /\ _ => split end.
  - exact Hc.
  - unfold serve, bind, lift, ret. now rewrite Hv, Hc.
  - apply get_present. apply getitem_setitem.
  - intros Hnew. split; [now apply setitem_new|].
    intros Hreach Hin.
    destruct (reachable_keyed_by_id Hreach) as [_ Hkeyed].
    assert (Hk : In key (Dict.keys db)).
    { rewrite (keyed_by_id_ids Hkeyed). now apply in_map. }
    apply contains_In_keys in Hk. congruence.
Qed.

(** C4, a witness: creating the bike advertisement in the empty store. *)
Lemma create_bike_then_get :
  create_advertisement Sample.env1 Sample.bike Dict.empty
  = (Ok (created Sample.env1 Sample.bike), Sample.db1)
  /\ get_advertisement Sample.key1 Sample.db1
     = (Ok (created Sample.env1 Sample.bike), Sample.db1).
Proof.
  destruct (create_then_get_returns_record Sample.env1 Dict.empty
              Sample.bike eq_refl) as (Hc & _ & Hg & _).
  split; [exact Hc | exact Hg].
Defined.

(** C4, as stated, fails: when uuid4 answers an id that is already a key,
    create returns a record with that very id and the record stored under
    it is replaced. *)
Lemma create_with_colliding_uuid :
  validate_AdvertisementCreate Sample.lamp = Ok tt
  /\ reachable Sample.db1
  /\ Dict.getitem Sample.key1 Sample.db1
     = Some (created Sample.env1 Sample.bike)
  /\ create_advertisement Scenario.env1_again Sample.lamp Sample.db1
     = (Ok (created Scenario.env1_again Sample.lamp),
        [(Sample.key1, created Scenario.env1_again Sample.lamp)])
  /\ id (created Scenario.env1_again Sample.lamp)
     = id (created Sample.env1 Sample.bike).
Proof.
  repeat match goal with |- _ /\ _ => split end; try reflexivity.
  apply (reachable_serve Sample.env1 (POST_advertisement Sample.bike)
           reachable_start).
Qed.

Lemma create_id_not_always_unseen : ~ create_id_always_unseen.
Proof.
  intros H.
  specialize (H Scenario.env1_again Sample.db1 Sample.lamp
                (created Scenario.env1_again Sample.lamp) eq_refl eq_refl).
  vm_compute in H. discriminate H.
Qed.

(** C7: an update whose body sets title to null passes validation and is
    applied without a check on assignment: the store it leaves is
    reachable, and its record has no title, so the bounds declared for a
    record do not hold there. *)
Theorem null_title_update_breaks_bounds :
  validate_AdvertisementUpdate Scenario.null_title = Ok tt
  /\ reachable Scenario.db_null_title
  /\ exists ad,
       Dict.getitem Sample.key1 Scenario.db_null_title = Some ad
       /\ title ad = PyNone
       /\ Advertisement_ok ad = false.
Proof.
  split; [reflexivity|]. split.
  - apply (reachable_serve Sample.env2
             (PATCH_advertisement Sample.key1 Scenario.null_title)).
    apply (reachable_serve Sample.env1 (POST_advertisement Sample.bike)
             reachable_start).
  - eexists. split; [reflexivity|]. split; reflexivity.
Qed.

(** C1: on the store holding the bike advertisement, a search whose
    created_after is an aware datetime passes validation and raises
    TypeError when the loop compares it with the naive created_at of the
    record, so no sequence of records is returned at all; on the store
    left by the null-title update, a search by title raises AttributeError
    in the same way. *)
Theorem search_raises_on_aware_datetime :
  reachable Sample.db1
  /\ validate_SearchQuery Scenario.since_2023_utc = Ok tt
  /\ serve Sample.env2 (GET_advertisements Scenario.since_2023_utc)
       Sample.db1
     = (Raise TypeError, Sample.db1)
  /\ validate_SearchQuery Scenario.bike_from_50 = Ok tt
  /\ serve Sample.env2 (GET_advertisements Scenario.bike_from_50)
       Scenario.db_null_title
     = (Raise AttributeError, Scenario.db_null_title).
Proof.
  split.
  - apply (reachable_serve Sample.env1 (POST_advertisement Sample.bike)
             reachable_start).
  - repeat split; vm_compute; reflexivity.
Qed.

(* ================================================================= *)
(** ** The contract on concrete requests *)

(** C2, a witness: [PATCH {"price": 150.0}] on the bike advertisement
    replaces the price and nothing else. *)
Lemma update_price_keeps_other_fields :
  exists ad',
    update_advertisement Sample.key1 Scenario.price_150 Sample.db1
    = (Ok ad', Dict.setitem Sample.key1 ad' Sample.db1)
    /\ price ad' = PyFloat (Float.of_Z 150)
    /\ title ad' = PyStr "Bike"
    /\ description ad' = PyStr "Red bike"
    /\ author ad' = PyStr "Alice"
    /\ id ad' = uuid4 Sample.env1
    /\ created_at ad' = utcnow Sample.env1.
Proof.
  destruct (@update_changes_only_supplied_fields Sample.db1 Sample.key1
              Scenario.price_150 (created Sample.env1 Sample.bike) eq_refl)
    as (ad' & Hrun & Hid & Hat & Ht & Hd & Hp & Ha & _).
  exists ad'.
  repeat match goal with |- _ /\ _ => split end; assumption.
Defined.


(** C6, a witness: a [PATCH] of an id that is not stored fails with 404 and
    leaves the store holding the bike advertisement as it was. *)
Lemma failed_patch_keeps_store :
  snd (serve Sample.env2
         (PATCH_advertisement Sample.key2 Scenario.price_150) Sample.db1)
  = Sample.db1.
Proof.
  apply (@failed_request_keeps_store Sample.env2
           (PATCH_advertisement Sample.key2 Scenario.price_150) Sample.db1
           not_found).
  reflexivity.
Defined.

(** C9, a witness: [price_min=0] never reaches the handler. *)
Lemma zero_price_min_is_rejected :
  exists locs,
    validate_SearchQuery Scenario.from_zero
    = Raise (RequestValidationError locs)
    /\ serve Sample.env1 (GET_advertisements Scenario.from_zero) Sample.db1
       = (Raise (RequestValidationError locs), Sample.db1).
Proof.
  apply (proj1 (search_criteria_validated_before_handler Sample.env1
                  Sample.db1 Scenario.from_zero)).
  left. exists Float.zero. split; reflexivity.
Defined.

(** A witness of [search_on_well_formed_input]: [title=bike&price_min=50]
    on the store holding the bike and the lamp returns the bike alone. *)
Lemma search_bike_from_50 :
  search_advertisements Scenario.bike_from_50 Sample.db2
  = (Ok [created Sample.env1 Sample.bike], Sample.db2).
Proof.
  rewrite (@search_on_well_formed_input Scenario.bike_from_50
             eq_refl eq_refl Sample.db2).
  - reflexivity.
  - repeat constructor.
  - repeat constructor.
Defined.

(** A witness of [bounds_hold_without_null_updates]: the store holding the
    bike and the lamp. *)
Lemma two_records_within_bounds :
  store_ok Sample.db2 /\ NoDup (map id (Dict.values Sample.db2)).
Proof.
  apply bounds_hold_without_null_updates.
  apply (@no_null_serve Sample.env2 (POST_advertisement Sample.lamp));
    try reflexivity.
  apply (@no_null_serve Sample.env1 (POST_advertisement Sample.bike));
    try reflexivity.
  apply no_null_start.
Defined.

(** The scenario of the specification: create, search, update, delete,
    get. *)
Example bike_scenario :
  let bike := created Sample.env1 Sample.bike in
  let bike_150 := setattr bike Price (PyFloat (Float.of_Z 150)) in
  serve Sample.env1 (POST_advertisement Sample.bike) Dict.empty
  = (Ok (one_advertisement bike), Sample.db1)
  /\ serve Sample.env2 (GET_advertisements Scenario.bike_from_50) Sample.db1
     = (Ok (advertisements [bike]), Sample.db1)
  /\ serve Sample.env2 (PATCH_advertisement Sample.key1 Scenario.price_150)
       Sample.db1
     = (Ok (one_advertisement bike_150), [(Sample.key1, bike_150)])
  /\ serve Sample.env2 (DELETE_advertisement Sample.key1)
       [(Sample.key1, bike_150)]
     = (Ok no_content, Dict.empty)
  /\ serve Sample.env2 (GET_advertisement Sample.key1) Dict.empty
     = (Raise not_found, Dict.empty).
Proof. repeat split; vm_compute; reflexivity. Qed.

Example key1_text :
  Sample.key1 = "123e4567-e89b-42d3-a456-426614174000".
Proof. reflexivity. Qed.

Example bike_price_is_binary64 :
  c_price Sample.bike = S754_finite false 7036874417766400 (-46).
Proof. reflexivity. Qed.

Example lower_folds_case :
  Str.lower "Red Bike" = "red bike"
  /\ Str.contains (Str.lower "BIKE") (Str.lower "Red Bike") = true
  /\ Str.contains "" "" = true
  /\ Str.contains "bus" "red bike" = false.
Proof. repeat split. Qed.

Example float_truth_values :
  truth Float.zero = false /\ truth Float.neg_zero = false
  /\ truth Float.nan = true /\ truth (Float.of_Z 50) = true.
Proof. repeat split. Qed.

(* ================================================================= *)
(** ** More on search *)

Lemma loop_body_result q ad acc r :
  loop_body q ad acc = Ok r -> r = acc \/ r = (acc ++ [ad])%list.
Proof.
  unfold loop_body.
  repeat match goal with
         | |- context [rbind (guard ?c ?t) _] =>
             destruct (guard c t) as [[]|]; cbn [rbind];
             try discriminate; try (intros [= <-]; now left)
         end.
  intros [= <-]. now right.
Qed.

Lemma subseq_refl {A} (l : list A) : subseq l l.
Proof. induction l; constructor; assumption. Qed.

Lemma subseq_nil_l {A} (l : list A) : subseq [] l.
Proof. induction l; constructor; assumption. Qed.

Lemma for_each_subseq q ads acc rs :
  for_each q ads acc = Ok rs ->
  exists sub, rs = (acc ++ sub)%list /\ subseq sub ads.
Proof.
  revert acc. induction ads as [|ad ads IH]; intros acc; cbn.
  - intros [= <-]. exists []. split; [now rewrite app_nil_r | constructor].
  - destruct (loop_body q ad acc) as [acc'|e] eqn:E; cbn [rbind];
      [|discriminate].
    intros H. destruct (IH _ H) as (sub & -> & Hsub).
    destruct (loop_body_result _ _ _ E) as [-> | ->].
    + exists sub. split; [reflexivity | now constructor].
    + exists (ad :: sub). split; [now rewrite <- app_assoc | now constructor].
Qed.

(** Whatever the store holds and whatever the criteria are, a search that
    returns gives the stored values with some of them left out: a record
    that is not stored is never returned, no record is returned more often
    than it is stored, and the order of the store is kept. *)
Theorem search_returns_subsequence :
  forall (q : SearchQuery) (db : Store) (rs : list Advertisement),
    fst (search_advertisements q db) = Ok rs ->
    subseq rs (Dict.values db).
Proof.
  intros q db rs. run_handler.
  destruct (range_inverted q); cbn [fst]; [discriminate|].
  intros H. destruct (for_each_subseq _ _ _ H) as (sub & -> & Hsub).
  exact Hsub.
Qed.

(** A witness: the result of [title=bike&price_min=50] on the store holding
    the bike and the lamp. *)
Lemma search_bike_is_subsequence :
  subseq [created Sample.env1 Sample.bike] (Dict.values Sample.db2).
Proof.
  apply (@search_returns_subsequence Scenario.bike_from_50 Sample.db2).
  reflexivity.
Defined.

(** *** Criteria that are false in Python's sense *)

Lemma guard_keep_truthy {A} `{PyBool A} (c : option A) test :
  guard (keep_truthy c) test = guard c test.
Proof.
  destruct c as [v|]; cbn; [|reflexivity].
  destruct (truth v) eqn:E; cbn; [now rewrite E | reflexivity].
Qed.

Lemma loop_body_drop_falsy q ad acc :
  loop_body (drop_falsy q) ad acc = loop_body q ad acc.
Proof.
  unfold loop_body, drop_falsy.
  cbn [q_title q_description q_author price_min price_max created_after
         created_before].
  now rewrite !guard_keep_truthy.
Qed.

Lemma for_each_drop_falsy q ads acc :
  for_each (drop_falsy q) ads acc = for_each q ads acc.
Proof.
  revert acc. induction ads as [|ad ads IH]; intros acc; cbn; [reflexivity|].
  rewrite loop_body_drop_falsy.
  destruct (loop_body q ad acc); cbn [rbind]; [apply IH | reflexivity].
Qed.

Lemma range_inverted_drop_falsy q :
  range_inverted (drop_falsy q) = range_inverted q.
Proof.
  unfold range_inverted, drop_falsy, keep_truthy. cbn [price_min price_max].
  destruct (price_min q) as [lo|], (price_max q) as [hi|]; try reflexivity.
  - destruct (truth lo) eqn:El, (truth hi) eqn:Eh; cbn;
      rewrite ?El, ?Eh; reflexivity.
  - destruct (truth lo); reflexivity.
Qed.

(** The handler takes a criterion that is false in Python's sense, the
    empty string or a bound equal to 0, for an absent one: erasing such
    criteria from the query changes neither the result nor the store, for
    every store. *)
Theorem search_ignores_falsy_criteria :
  forall (q : SearchQuery) (db : Store),
    search_advertisements (drop_falsy q) db = search_advertisements q db.
Proof.
  intros q db. run_handler.
  rewrite range_inverted_drop_falsy.
  destruct (range_inverted q); [reflexivity|].
  now rewrite for_each_drop_falsy.
Qed.

(** *** Lower and upper case in the criteria *)

Lemma lower_char_idem c : Str.lower_char (Str.lower_char c) = Str.lower_char c.
Proof. destruct c as [[] [] [] [] [] [] [] []]; reflexivity. Qed.

Lemma lower_idem s : Str.lower (Str.lower s) = Str.lower s.
Proof.
  induction s as [|c s IH]; cbn; [reflexivity|].
  now rewrite lower_char_idem, IH.
Qed.

Lemma guard_lower c v :
  guard (option_map Str.lower c) (fun t => lower_not_in t v)
  = guard c (fun t => lower_not_in t v).
Proof.
  destruct c as [t|]; cbn; [|reflexivity].
  unfold lower_not_in. rewrite lower_idem.
  now destruct t.
Qed.

Lemma loop_body_fold_case q ad acc :
  loop_body (fold_case q) ad acc = loop_body q ad acc.
Proof.
  unfold loop_body, fold_case.
  cbn [q_title q_description q_author price_min price_max created_after
         created_before].
  now rewrite !guard_lower.
Qed.

Lemma for_each_fold_case q ads acc :
  for_each (fold_case q) ads acc = for_each q ads acc.
Proof.
  revert acc. induction ads as [|ad ads IH]; intros acc; cbn; [reflexivity|].
  rewrite loop_body_fold_case.
  destruct (loop_body q ad acc); cbn [rbind]; [apply IH | reflexivity].
Qed.

Lemma search_fold_case q (db : Store) :
  search_advertisements (fold_case q) db = search_advertisements q db.
Proof.
  run_handler. change (range_inverted (fold_case q)) with (range_inverted q).
  destruct (range_inverted q); [reflexivity|].
  now rewrite for_each_fold_case.
Qed.

(** The case of the letters in the title, description and author criteria
    is of no account: two queries that agree once these criteria are
    written in lower case give the same result on every store. *)
Theorem search_is_case_insensitive_in_criteria :
  forall (q q' : SearchQuery) (db : Store),
    fold_case q = fold_case q' ->
    search_advertisements q db = search_advertisements q' db.
Proof.
  intros q q' db H.
  rewrite <- (search_fold_case q db), <- (search_fold_case q' db).
  now rewrite H.
Qed.

(** A witness: [title=BIKE] and [title=bike] give the same result. *)
Lemma search_BIKE_as_bike :
  search_advertisements
    (mk_SearchQuery (Some "BIKE") None None (Some (Float.of_Z 50)) None
       None None) Sample.db2
  = search_advertisements Scenario.bike_from_50 Sample.db2.
Proof.
  apply search_is_case_insensitive_in_criteria. reflexivity.
Defined.

(** *** Bounds are inclusive *)

Lemma SFltb_irrefl (x : float) : SFltb x x = false.
Proof.
  unfold SFltb.
  destruct x as [[]|[]| |[] m e]; cbn; try reflexivity;
    rewrite Z.compare_refl, Pos.compare_cont_refl; reflexivity.
Qed.

Lemma le_both_ways (x p : float) : SFleb p x && SFleb x p = SFeqb x p.
Proof.
  unfold SFleb, SFeqb. rewrite (SFcompare_antisym x p).
  destruct (SFcompare x p) as [[]|]; reflexivity.
Qed.

Lemma loop_body_priced_exactly p ad acc :
  gt0 p = true -> is_float_gt0 (price ad) = true ->
  loop_body (priced_exactly p) ad acc
  = Ok (if price_equals p ad then (acc ++ [ad])%list else acc).
Proof.
  intros Hp Had. unfold loop_body, priced_exactly, price_equals.
  cbn [q_title q_description q_author price_min price_max created_after
         created_before].
  destruct (price ad) as [| |x]; try discriminate Had. cbn in Had.
  rewrite (@guard_min (Some p) x Hp (gt0_not_nan _ Had)),
    (@guard_max (Some p) x Hp (gt0_not_nan _ Had)).
  cbn [guard rbind price_at_least price_at_most].
  rewrite <- (le_both_ways x p). unfold Float.ge, Float.le.
  destruct (SFleb p x), (SFleb x p); reflexivity.
Qed.

Lemma for_each_priced_exactly p ads acc :
  gt0 p = true ->
  Forall (fun ad => is_float_gt0 (price ad) = true) ads ->
  for_each (priced_exactly p) ads acc
  = Ok (acc ++ filter (price_equals p) ads)%list.
Proof.
  intros Hp Hads. revert acc.
  induction Hads as [|ad ads Had _ IH]; intros acc; cbn [for_each filter].
  - now rewrite app_nil_r.
  - rewrite (@loop_body_priced_exactly p ad acc Hp Had). cbn [rbind].
    rewrite IH.
    destruct (price_equals p ad); [now rewrite <- app_assoc | reflexivity].
Qed.

(** Both price bounds are inclusive and equal bounds are no inverted
    range: on a store whose prices are floats greater than 0, the query
    price_min = price_max = p, for p > 0, is not rejected and returns
    exactly the records whose price equals p, in the store's order. *)
Theorem equal_price_bounds_select_equal_prices :
  forall (p : float) (db : Store),
    gt0 p = true ->
    Forall (fun ad => is_float_gt0 (price ad) = true) (Dict.values db) ->
    search_advertisements (priced_exactly p) db
    = (Ok (filter (price_equals p) (Dict.values db)), db).
Proof.
  intros p db Hp Hdb. run_handler.
  unfold range_inverted. cbn [priced_exactly price_min price_max].
  unfold Float.gt. rewrite SFltb_irrefl, andb_false_r.
  now rewrite (@for_each_priced_exactly p _ [] Hp Hdb).
Qed.

(** A witness: [price_min=20&price_max=20] returns the lamp, whose price is
    20. *)
Lemma search_priced_20 :
  search_advertisements (priced_exactly (Float.of_Z 20)) Sample.db2
  = (Ok [created Sample.env2 Sample.lamp], Sample.db2).
Proof.
  rewrite (@equal_price_bounds_select_equal_prices (Float.of_Z 20)
             Sample.db2 eq_refl).
  - reflexivity.
  - repeat constructor.
Defined.

(* ================================================================= *)
(** ** More on updates *)

Lemma setitem_setitem {V} k (v1 v2 : V) (d : Dict.t V) :
  Dict.setitem k v2 (Dict.setitem k v1 d) = Dict.setitem k v2 d.
Proof.
  induction d as [|[k' v'] d IH]; cbn.
  - now rewrite String.eqb_refl.
  - destruct (String.eqb k k') eqn:E; cbn; rewrite E; [reflexivity|].
    now rewrite IH.
Qed.

Lemma keys_setitem_getitem {V} k (v v' : V) (d : Dict.t V) :
  Dict.getitem k d = Some v' ->
  Dict.keys (Dict.setitem k v d) = Dict.keys d.
Proof.
  intros H. apply keys_setitem_present.
  now apply getitem_Some_contains in H.
Qed.

Lemma apply_merged_updates u1 u2 ad :
  fold_left (fun a fv => setattr a (fst fv) (snd fv))
    (dict_exclude_unset u2)
    (fold_left (fun a fv => setattr a (fst fv) (snd fv))
       (dict_exclude_unset u1) ad)
  = fold_left (fun a fv => setattr a (fst fv) (snd fv))
      (dict_exclude_unset (merge_updates u1 u2)) ad.
Proof.
  rewrite !apply_update_data.
  destruct u1 as [t1 d1 p1 a1], u2 as [[t2|] [d2|] [p2|] [a2|]];
    reflexivity.
Qed.

(** Two updates of one id in a row act as the single update that sets
    every field either of them sets, the second winning where both do: the
    returned record and the store are the same, also when the id is absent
    and both fail with 404.  In particular an update repeated is the update
    once. *)
Theorem successive_updates_merge :
  forall (db : Store) (k : string) (u1 u2 : AdvertisementUpdate),
    update_advertisement k u2 (snd (update_advertisement k u1 db))
    = update_advertisement k (merge_updates u1 u2) db
    /\ update_advertisement k u1 (snd (update_advertisement k u1 db))
       = update_advertisement k u1 db.
Proof.
  intros db k u1 u2.
  assert (Hmerge : forall u u',
             update_advertisement k u' (snd (update_advertisement k u db))
             = update_advertisement k (merge_updates u u') db).
  { intros u u'.
    destruct (contains_cases db k) as [[ad [Hget _]]|Hout].
    - rewrite (update_present _ _ u Hget). cbn [snd].
      rewrite (update_present _ _ u' (getitem_setitem k _ db)).
      rewrite (update_present _ _ (merge_updates u u') Hget).
      now rewrite setitem_setitem, apply_merged_updates.
    - rewrite (update_absent _ _ u Hout). cbn [snd].
      now rewrite !update_absent. }
  split; [apply Hmerge|].
  rewrite Hmerge.
  replace (merge_updates u1 u1) with u1; [reflexivity|].
  destruct u1 as [[t|] [d|] [p|] [a|]]; reflexivity.
Qed.

(** An update adds no record, removes none and moves none: the keys of the
    store, in their order, are the same after the handler as before, for
    every id and every partial update. *)
Theorem update_keeps_keys_in_place :
  forall (env : Env) (db : Store) (k : string) (u : AdvertisementUpdate),
    Dict.keys (snd (update_advertisement k u db)) = Dict.keys db
    /\ Dict.keys (snd (serve env (PATCH_advertisement k u) db))
       = Dict.keys db.
Proof.
  intros env db k u.
  assert (H : Dict.keys (snd (update_advertisement k u db)) = Dict.keys db).
  { destruct (contains_cases db k) as [[ad [Hget _]]|Hout].
    - rewrite (update_present _ _ u Hget). cbn [snd].
      now apply (@keys_setitem_getitem _ k _ ad db).
    - now rewrite (update_absent _ _ u Hout). }
  split; [exact H|].
  unfold serve, bind, lift, ret.
  destruct (validate_AdvertisementUpdate u); [|reflexivity].
  destruct (update_advertisement k u db) as [[ad|e] db']; exact H.
Qed.

(* ================================================================= *)
(** ** What a request writes *)

Lemma getitem_delitem_other {V} k k' (d : Dict.t V) :
  k' <> k -> Dict.getitem k' (Dict.delitem k d) = Dict.getitem k' d.
Proof.
  intros Hne. unfold Dict.delitem.
  induction d as [|[k0 v0] d IH]; cbn; [reflexivity|].
  destruct (String.eqb k k0) eqn:E; cbn.
  - apply String.eqb_eq in E. subst k0.
    apply String.eqb_neq in Hne. now rewrite Hne.
  - now rewrite IH.
Qed.

Lemma getitem_delitem_same {V} k (d : Dict.t V) :
  Dict.getitem k (Dict.delitem k d) = None.
Proof.
  pose proof (contains_delitem k d) as H.
  rewrite getitem_contains in H.
  now destruct (Dict.getitem k (Dict.delitem k d)).
Qed.

Lemma getitem_after_serve env req (db : Store) k :
  target env req <> Some k ->
  Dict.getitem k (snd (serve env req db)) = Dict.getitem k db.
Proof.
  intros Hk.
  destruct req as [c|k0 u|k0|k0|q|]; cbn [target] in Hk.
  - unfold serve, bind, lift, ret.
    destruct (validate_AdvertisementCreate c) as [[]|e] eqn:Hv;
      [|reflexivity].
    rewrite (@create_valid env c db Hv). cbn [snd].
    apply getitem_setitem_other. congruence.
  - unfold serve, bind, lift, ret.
    destruct (validate_AdvertisementUpdate u) as [[]|e] eqn:Hv;
      [|reflexivity].
    destruct (contains_cases db k0) as [[ad [Hget _]]|Hout].
    + rewrite (update_present _ _ u Hget). cbn [snd].
      apply getitem_setitem_other. congruence.
    + now rewrite (update_absent _ _ u Hout).
  - unfold serve, bind, ret.
    destruct (Dict.contains k0 db) eqn:E.
    + rewrite (delete_present _ _ E). cbn [snd].
      apply getitem_delitem_other. congruence.
    + now rewrite (delete_absent _ _ E).
  - now rewrite serve_get_keeps_store.
  - now rewrite serve_search_keeps_store.
  - reflexivity.
Qed.

(** A request writes at most one entry of the store: a create the entry
    under the text of the generated id, an update or a delete the entry
    under the id of its path; under every other key the store holds after
    the request what it held before, whether the request succeeds or
    fails. *)
Theorem request_writes_only_its_target :
  forall (env : Env) (req : request) (db : Store) (k : string),
    target env req <> Some k ->
    Dict.getitem k (snd (serve env req db)) = Dict.getitem k db
    /\ fst (get_advertisement k (snd (serve env req db)))
       = fst (get_advertisement k db).
Proof.
  intros env req db k Hk.
  pose proof (getitem_after_serve env req db Hk) as H.
  split; [exact H|].
  destruct (Dict.getitem k db) as [ad|] eqn:E.
  - now rewrite (get_present _ _ H), (get_present _ _ E).
  - rewrite !get_absent; [reflexivity | |];
      rewrite getitem_contains; [now rewrite E | now rewrite H].
Qed.

(** A witness: an update of the bike leaves the entry of the lamp alone. *)
Lemma patch_leaves_lamp :
  Dict.getitem Sample.key2
    (snd (serve Sample.env1
            (PATCH_advertisement Sample.key1 Scenario.null_title) Sample.db2))
  = Dict.getitem Sample.key2 Sample.db2.
Proof.
  apply (@request_writes_only_its_target Sample.env1
           (PATCH_advertisement Sample.key1 Scenario.null_title)
           Sample.db2 Sample.key2).
  intros H. vm_compute in H. discriminate H.
Defined.

(** As long as a record stays in the store, its id and its created_at are
    the ones it was created with: after any request, the record found
    under a key has the id and the created_at of the record found there
    before, unless the request is a create whose generated id is that
    key. *)
Theorem id_and_created_at_are_kept :
  forall (env : Env) (req : request) (db : Store) (k : string)
         (ad ad' : Advertisement),
    Dict.getitem k db = Some ad ->
    Dict.getitem k (snd (serve env req db)) = Some ad' ->
    (forall c, req = POST_advertisement c -> str_of_UUID (uuid4 env) <> k) ->
    id ad' = id ad /\ created_at ad' = created_at ad.
Proof.
  intros env req db k ad ad' Hget Hget' Hpost.
  assert (Hsame : Dict.getitem k (snd (serve env req db)) = Dict.getitem k db
                  -> id ad' = id ad /\ created_at ad' = created_at ad).
  { intros H. rewrite H, Hget in Hget'. injection Hget' as <-. now split. }
  destruct req as [c|k0 u|k0|k0|q|].
  - apply Hsame, getitem_after_serve. cbn [target].
    intros [= H]. exact (Hpost c eq_refl H).
  - destruct (String.eqb k0 k) eqn:E.
    + apply String.eqb_eq in E. subst k0.
      unfold serve, bind, lift, ret in Hget'.
      destruct (validate_AdvertisementUpdate u) as [[]|e];
        [|cbn [snd] in Hget'; rewrite Hget in Hget';
          injection Hget' as <-; now split].
      rewrite (update_present _ _ u Hget) in Hget'. cbn [snd] in Hget'.
      rewrite getitem_setitem in Hget'. injection Hget' as <-.
      rewrite apply_update_data. now split.
    + apply String.eqb_neq in E.
      apply Hsame, getitem_after_serve. cbn [target]. congruence.
  - destruct (String.eqb k0 k) eqn:E.
    + apply String.eqb_eq in E. subst k0.
      unfold serve, bind, ret in Hget'.
      rewrite (delete_present _ _ (getitem_Some_contains _ _ Hget)) in Hget'.
      cbn [snd] in Hget'. rewrite getitem_delitem_same in Hget'.
      discriminate.
    + apply String.eqb_neq in E.
      apply Hsame, getitem_after_serve. cbn [target]. congruence.
  - apply Hsame, getitem_after_serve. discriminate.
  - apply Hsame, getitem_after_serve. discriminate.
  - apply Hsame, getitem_after_serve. discriminate.
Qed.

(** A witness: the bike after [PATCH {"price": 150.0}]. *)
Lemma patched_bike_keeps_id :
  id (setattr (created Sample.env1 Sample.bike) Price
        (PyFloat (Float.of_Z 150)))
  = uuid4 Sample.env1
  /\ created_at (setattr (created Sample.env1 Sample.bike) Price
                   (PyFloat (Float.of_Z 150)))
     = utcnow Sample.env1.
Proof.
  apply (@id_and_created_at_are_kept Sample.env2
           (PATCH_advertisement Sample.key1 Scenario.price_150)
           Sample.db1 Sample.key1 (created Sample.env1 Sample.bike)).
  - reflexivity.
  - reflexivity.
  - discriminate.
Defined.

(* ================================================================= *)
(** ** Creating, listing and deleting *)

Lemma delitem_absent {V} k (d : Dict.t V) :
  Dict.contains k d = false -> Dict.delitem k d = d.
Proof.
  unfold Dict.delitem.
  induction d as [|[k' v'] d IH]; cbn; [reflexivity|].
  destruct (String.eqb k k'); cbn; [discriminate|].
  intros H. now rewrite IH.
Qed.

Lemma delitem_app_new {V} k (v : V) (d : Dict.t V) :
  Dict.contains k d = false ->
  Dict.delitem k (d ++ [(k, v)])%list = d.
Proof.
  intros H. unfold Dict.delitem. rewrite filter_app. cbn.
  rewrite String.eqb_refl. cbn. rewrite app_nil_r.
  now apply delitem_absent.
Qed.

Lemma contains_app_new {V} k (v : V) (d : Dict.t V) :
  Dict.contains k (d ++ [(k, v)])%list = true.
Proof.
  unfold Dict.contains. rewrite existsb_app. cbn.
  rewrite String.eqb_refl. now rewrite orb_true_r.
Qed.

(** Creating a record under an id that is not yet a key and then deleting
    that id gives back the store as it was before the create, entry for
    entry and in the same order. *)
Theorem create_then_delete_restores_store :
  forall (env env' : Env) (c : AdvertisementCreate) (db : Store),
    validate_AdvertisementCreate c = Ok tt ->
    Dict.contains (str_of_UUID (uuid4 env)) db = false ->
    serve env' (DELETE_advertisement (str_of_UUID (uuid4 env)))
      (snd (serve env (POST_advertisement c) db))
    = (Ok no_content, db).
Proof.
  intros env env' c db Hv Hnew.
  unfold serve at 2. unfold bind, lift, ret. rewrite Hv.
  rewrite (@create_valid env c db Hv). cbn [snd].
  rewrite (setitem_new _ _ _ Hnew).
  unfold serve, bind, ret.
  rewrite (delete_present _ _ (contains_app_new _ _ _)).
  now rewrite (delitem_app_new _ _ _ Hnew).
Qed.

(** A witness: creating the lamp and deleting it again. *)
Lemma create_then_delete_lamp :
  serve Sample.env1 (DELETE_advertisement Sample.key2) Sample.db2
  = (Ok no_content, Sample.db1).
Proof.
  apply (@create_then_delete_restores_store Sample.env2 Sample.env1
           Sample.lamp Sample.db1); reflexivity.
Defined.

Lemma setitem_splits {V} k (v : V) (d : Dict.t V) :
  Dict.contains k d = true ->
  exists d1 old d2,
    d = (d1 ++ (k, old) :: d2)%list
    /\ Dict.contains k d1 = false
    /\ Dict.setitem k v d = (d1 ++ (k, v) :: d2)%list.
Proof.
  induction d as [|[k' v'] d IH]; cbn; [discriminate|].
  destruct (String.eqb k k') eqn:E; cbn.
  - apply String.eqb_eq in E. subst k'. intros _.
    exists [], v', d. now repeat split.
  - intros H. destruct (IH H) as (d1 & old & d2 & Hd & Hd1 & Hset).
    exists ((k', v') :: d1), old, d2. split; [now rewrite Hd|]. split.
    + unfold Dict.contains in *. cbn. now rewrite E.
    + now rewrite Hset.
Qed.

Lemma search_no_criteria_lists_values (db : Store) :
  search_advertisements Sample.no_criteria db = (Ok (Dict.values db), db).
Proof.
  run_handler. cbn [range_inverted Sample.no_criteria price_min].
  now rewrite for_each_no_criteria.
Qed.

(** The order of the listing is the order of creation: after a create
    under an id that is not yet a key, the search without criteria returns
    the records it returned before, in the same order, followed by the new
    record.  After a create whose generated id is already a key, the new
    record stands in the place of the record stored under that key: the
    entries before it and after it are as they were, in the store and in
    the listing, and so are the keys and their order. *)
Theorem created_record_is_listed_last :
  forall (env : Env) (c : AdvertisementCreate) (db : Store),
    validate_AdvertisementCreate c = Ok tt ->
    let key := str_of_UUID (uuid4 env) in
    let db' := snd (create_advertisement env c db) in
    (Dict.contains key db = false ->
     search_advertisements Sample.no_criteria db'
     = (Ok (Dict.values db ++ [created env c])%list, db'))
    /\ (Dict.contains key db = true ->
        exists before old after,
          db = (before ++ (key, old) :: after)%list
          /\ Dict.contains key before = false
          /\ db' = (before ++ (key, created env c) :: after)%list
          /\ search_advertisements Sample.no_criteria db'
             = (Ok (Dict.values before ++ created env c :: Dict.values after)%list,
                db')
          /\ Dict.keys db' = Dict.keys db).
Proof.
  intros env c db Hv key db'. subst key db'.
  rewrite (@create_valid env c db Hv). cbn [snd]. split; intros Hk.
  - rewrite (setitem_new _ _ _ Hk), search_no_criteria_lists_values.
    unfold Dict.values. now rewrite map_app.
  - destruct (@setitem_splits _ (str_of_UUID (uuid4 env)) (created env c)
                db Hk) as (d1 & old & d2 & Hdb & Hd1 & Hset).
    exists d1, old, d2.
    repeat match goal with |- _ /\ _ => split end.
    + exact Hdb.
    + exact Hd1.
    + exact Hset.
    + rewrite search_no_criteria_lists_values, Hset.
      unfold Dict.values. now rewrite map_app.
    + now apply keys_setitem_present.
Qed.

(** A witness: the lamp, created second, is listed second. *)
Lemma lamp_is_listed_after_bike :
  search_advertisements Sample.no_criteria Sample.db2
  = (Ok [created Sample.env1 Sample.bike; created Sample.env2 Sample.lamp],
     Sample.db2).
Proof.
  apply (proj1 (@created_record_is_listed_last Sample.env2 Sample.lamp
                  Sample.db1 eq_refl)).
  reflexivity.
Defined.

Lemma delitem_splits {V} k (v : V) (d : Dict.t V) :
  Dict.wf d -> Dict.getitem k d = Some v ->
  exists d1 d2,
    d = (d1 ++ (k, v) :: d2)%list /\ Dict.delitem k d = (d1 ++ d2)%list.
Proof.
  unfold Dict.wf, Dict.keys, Dict.delitem.
  induction d as [|[k' v'] d IH]; cbn; [discriminate|].
  intros Hwf. inversion Hwf as [|? ? Hnotin Hrest]; subst.
  destruct (String.eqb k k') eqn:E; cbn.
  - apply String.eqb_eq in E. subst k'. intros [= ->].
    exists [], d. split; [reflexivity|]. cbn.
    apply (delitem_absent k d).
    destruct (Dict.contains k d) eqn:Ec; [|reflexivity].
    apply contains_In_keys in Ec. contradiction.
  - intros Hget. destruct (IH Hrest Hget) as (d1 & d2 & -> & Hdel).
    exists ((k', v') :: d1), d2. split; [reflexivity|].
    cbn. now rewrite Hdel.
Qed.

(** In a reachable store, deleting a stored id removes exactly the one
    record stored under it: the listing after the delete is the listing
    before with that record taken out, the records before it and after it
    unchanged and in the same order. *)
Theorem delete_removes_exactly_one_record :
  forall (db : Store) (k : string) (ad : Advertisement),
    reachable db ->
    Dict.getitem k db = Some ad ->
    exists before after,
      Dict.values db = (before ++ ad :: after)%list
      /\ delete_advertisement k db
         = (Ok tt, Dict.delitem k db)
      /\ Dict.values (Dict.delitem k db) = (before ++ after)%list.
Proof.
  intros db k ad Hreach Hget.
  destruct (reachable_keyed_by_id Hreach) as [Hwf _].
  destruct (@delitem_splits _ k ad db Hwf Hget) as (d1 & d2 & Hd & Hdel).
  exists (Dict.values d1), (Dict.values d2).
  repeat match goal with |- _ /\ _ => split end.
  - rewrite Hd at 1. unfold Dict.values. now rewrite map_app.
  - apply delete_present. now apply getitem_Some_contains in Hget.
  - rewrite Hdel. unfold Dict.values. now rewrite map_app.
Qed.

(** A witness: deleting the bike from the store holding the bike and the
    lamp. *)
Lemma delete_bike_leaves_lamp :
  exists before after,
    Dict.values Sample.db2
    = (before ++ created Sample.env1 Sample.bike :: after)%list
    /\ delete_advertisement Sample.key1 Sample.db2
       = (Ok tt, Dict.delitem Sample.key1 Sample.db2)
    /\ Dict.values (Dict.delitem Sample.key1 Sample.db2)
       = (before ++ after)%list.
Proof.
  apply (@delete_removes_exactly_one_record Sample.db2 Sample.key1
           (created Sample.env1 Sample.bike)).
  - apply (reachable_serve Sample.env2 (POST_advertisement Sample.lamp)).
    apply (reachable_serve Sample.env1 (POST_advertisement Sample.bike)).
    apply reachable_start.
  - reflexivity.
Defined.

(* ================================================================= *)
(** ** What every reachable store satisfies *)

Lemma ok_is_typed ad :
  Advertisement_ok ad = true -> Advertisement_typed ad = true.
Proof.
  assert (Hweak : forall check v, check v = true -> none_or check v = true).
  { intros check v H. now destruct v. }
  unfold Advertisement_ok, Advertisement_typed. intros H.
  apply andb_prop in H as [H Ha].
  apply andb_prop in H as [H Hp].
  apply andb_prop in H as [Ht Hd].
  now rewrite (Hweak _ _ Ht), (Hweak _ _ Hd), (Hweak _ _ Hp),
    (Hweak _ _ Ha).
Qed.

Lemma supplied_str_typed lo hi o old :
  unset_or (Str.len_between lo hi) o = true ->
  none_or (is_str_between lo hi) old = true ->
  none_or (is_str_between lo hi) (supplied_or of_opt_str o old) = true.
Proof. destruct o as [[s|]|]; cbn; congruence. Qed.

Lemma supplied_float_typed o old :
  unset_or gt0 o = true ->
  none_or is_float_gt0 old = true ->
  none_or is_float_gt0 (supplied_or of_opt_float o old) = true.
Proof. destruct o as [[x|]|]; cbn; congruence. Qed.

Lemma updated_typed u ad :
  validate_AdvertisementUpdate u = Ok tt ->
  Advertisement_typed ad = true ->
  Advertisement_typed
    (fold_left (fun a fv => setattr a (fst fv) (snd fv))
       (dict_exclude_unset u) ad) = true.
Proof.
  intros Hv Hok.
  destruct (validate_AdvertisementUpdate_ok _ Hv) as (Ht & Hd & Hp & Ha).
  unfold Advertisement_typed in Hok.
  apply andb_prop in Hok as [Hok Hoa].
  apply andb_prop in Hok as [Hok Hop].
  apply andb_prop in Hok as [Hot Hod].
  rewrite apply_update_data. unfold Advertisement_typed.
  cbn [title description price author].
  now rewrite (supplied_str_typed _ _ _ _ Ht Hot),
    (supplied_str_typed _ _ _ _ Hd Hod),
    (supplied_float_typed _ _ Hp Hop),
    (supplied_str_typed _ _ _ _ Ha Hoa).
Qed.

Lemma reachable_typed (db : Store) :
  reachable db ->
  Forall (fun ad => Advertisement_typed ad = true) (Dict.values db).
Proof.
  induction 1 as [|env req db _ IH]; [constructor|].
  destruct req as [c|k u|k|k|q|].
  - unfold serve, bind, lift, ret.
    destruct (validate_AdvertisementCreate c) as [[]|e] eqn:Hv; [|exact IH].
    rewrite (@create_valid env c db Hv). cbn [snd].
    apply Forall_values_setitem; [exact IH|].
    apply ok_is_typed. now apply created_ok.
  - unfold serve, bind, lift, ret.
    destruct (validate_AdvertisementUpdate u) as [[]|e] eqn:Hv; [|exact IH].
    destruct (contains_cases db k) as [[ad [Hget _]]|Hout].
    + rewrite (update_present _ _ u Hget). cbn [snd].
      apply Forall_values_setitem; [exact IH|].
      apply (@updated_typed u ad Hv).
      apply (@Forall_values_In _ _ k ad db IH (@getitem_In _ k db ad Hget)).
    + now rewrite (update_absent _ _ u Hout).
  - unfold serve, bind, ret.
    destruct (Dict.contains k db) eqn:E.
    + rewrite (delete_present _ _ E). cbn [snd].
      now apply Forall_values_delitem.
    + now rewrite (delete_absent _ _ E).
  - now rewrite serve_get_keeps_store.
  - now rewrite serve_search_keeps_store.
  - exact IH.
Qed.

(** In every store the service can reach, whatever the requests were, no
    two records share an id, every record is stored under the text of its
    id, and each of title, description, price and author is either None or
    a value within the bounds declared for the field (a string of 1..200,
    1..2000 and 1..100 characters, a float greater than 0). *)
Theorem reachable_store_is_keyed_and_typed :
  forall (db : Store),
    reachable db ->
    NoDup (Dict.keys db)
    /\ keyed_by_id db
    /\ NoDup (map id (Dict.values db))
    /\ Forall (fun ad => Advertisement_typed ad = true) (Dict.values db).
Proof.
  intros db Hreach.
  destruct (reachable_keyed_by_id Hreach) as [Hwf Hkey].
  repeat match goal with |- _ /\ _ => split end.
  - exact Hwf.
  - exact Hkey.
  - unfold Dict.wf in Hwf. rewrite (keyed_by_id_ids Hkey) in Hwf.
    now apply NoDup_map_inv in Hwf.
  - now apply reachable_typed.
Qed.

(** A witness: the store left by [PATCH {"title": null}]. *)
Lemma null_title_store_is_keyed_and_typed :
  NoDup (Dict.keys Scenario.db_null_title)
  /\ keyed_by_id Scenario.db_null_title
  /\ NoDup (map id (Dict.values Scenario.db_null_title))
  /\ Forall (fun ad => Advertisement_typed ad = true)
       (Dict.values Scenario.db_null_title).
Proof.
  apply reachable_store_is_keyed_and_typed.
  apply (reachable_serve Sample.env2
           (PATCH_advertisement Sample.key1 Scenario.null_title)).
  apply (reachable_serve Sample.env1 (POST_advertisement Sample.bike)).
  apply reachable_start.
Defined.

(* ================================================================= *)
(** ** The two models of a new advertisement *)

Lemma validated_of_forallb error checks :
  forallb snd checks = true -> validated error checks = Ok tt.
Proof.
  unfold validated, failures.
  induction checks as [|[loc []] checks IH]; cbn; [reflexivity | exact IH |].
  discriminate.
Qed.

Lemma validate_price_characterised (v : float) :
  validate_price v = Ok v <-> gt0 v = true \/ Float.is_nan v = true.
Proof.
  unfold validate_price, gt0, Float.gt, Float.le, SFleb, SFltb.
  rewrite (SFcompare_antisym v Float.zero).
  destruct v as [[]|[]| |[] m e]; cbn; split; intros H;
    try discriminate; try reflexivity; auto;
    destruct H; discriminate.
Qed.

(** [Advertisement] and [AdvertisementCreate] accept the same bodies: the
    create handler returns a record exactly when the body meets the
    constraints of the request model, so a body that passed request
    validation never fails in the handler; and the price validator of
    [Advertisement] rejects nothing that [gt=0] lets through: it accepts a
    value exactly when the value is greater than 0 or is NaN. *)
Theorem create_accepts_what_validation_accepts :
  forall (env : Env) (c : AdvertisementCreate) (db : Store),
    ((exists ad, fst (create_advertisement env c db) = Ok ad)
     <-> validate_AdvertisementCreate c = Ok tt)
    /\ (forall v : float,
          validate_price v = Ok v
          <-> gt0 v = true \/ Float.is_nan v = true).
Proof.
  intros env c db. split; [|exact validate_price_characterised].
  split.
  - intros [ad Had]. run_handler.
    unfold new_Advertisement, rbind in Had.
    match type of Had with
    | context [validated ?e ?cs] =>
        destruct (validated e cs) as [[]|] eqn:E; [|discriminate Had]
    end.
    apply validated_ok in E. split_checks E.
    apply andb_prop in H1 as [Hp _].
    apply validated_of_forallb. cbn [forallb snd].
    now rewrite H, H0, Hp, H2.
  - intros Hv. exists (created env c).
    now rewrite (@create_valid env c db Hv).
Qed.

(* ================================================================= *)
(** ** Ids and keys *)

Lemma hex_length w n : String.length (hex w n) = w.
Proof.
  revert n. induction w as [|w IH]; intros n; cbn; [reflexivity|].
  assert (H : forall s c, String.length (s ++ String c EmptyString)
                          = S (String.length s)).
  { induction s as [|c' s IHs]; intros c; cbn; [reflexivity|].
    now rewrite IHs. }
  now rewrite H, IH.
Qed.

Lemma append_last_inj s1 s2 c1 c2 :
  s1 ++ String c1 EmptyString = s2 ++ String c2 EmptyString ->
  s1 = s2 /\ c1 = c2.
Proof.
  revert s2. induction s1 as [|a s1 IH]; intros [|b s2]; cbn.
  - intros [= ->]. now split.
  - intros [= -> H]. destruct s2; discriminate.
  - intros [= -> H]. destruct s1; discriminate.
  - intros [= -> H]. destruct (IH _ H) as [-> ->]. now split.
Qed.

Lemma hexdigit_inj a b :
  (a < 16)%N -> (b < 16)%N -> hexdigit a = hexdigit b -> a = b.
Proof.
  set (value := fun c : ascii =>
                  let v := N_of_ascii c in
                  if (v <? 58)%N then (v - 48)%N else (v - 87)%N).
  assert (Hvalue : forall x, (x < 16)%N -> value (hexdigit x) = x).
  { intros x Hx. rewrite <- (N2Nat.id x).
    assert (Hn : (N.to_nat x < 16)%nat) by lia.
    destruct (N.to_nat x) as [|n]; [reflexivity|].
    do 15 (destruct n as [|n]; [reflexivity|]). lia. }
  intros Ha Hb H.
  rewrite <- (Hvalue a Ha), <- (Hvalue b Hb). now rewrite H.
Qed.

Lemma hex_inj w n m :
  hex w n = hex w m -> (n mod 16 ^ N.of_nat w = m mod 16 ^ N.of_nat w)%N.
Proof.
  revert n m. induction w as [|w IH]; intros n m.
  - intros _. cbn. now rewrite !N.mod_1_r.
  - cbn [hex]. intros H.
    apply append_last_inj in H. destruct H as [Hhi Hlo].
    apply IH in Hhi.
    apply hexdigit_inj in Hlo; try (apply N.mod_lt; discriminate).
    rewrite Nat2N.inj_succ, N.pow_succ_r by apply N.le_0_l.
    rewrite !N.Div0.mod_mul_r. now rewrite Hhi, Hlo.
Qed.

(** the text of an id without its dashes is the 32 digits *)
Lemma dashes_inj h1 h2 :
  String.length h1 = 32%nat -> String.length h2 = 32%nat ->
  substring 0 8 h1 ++ "-" ++ substring 8 4 h1 ++ "-" ++ substring 12 4 h1
    ++ "-" ++ substring 16 4 h1 ++ "-" ++ substring 20 12 h1
  = substring 0 8 h2 ++ "-" ++ substring 8 4 h2 ++ "-" ++ substring 12 4 h2
    ++ "-" ++ substring 16 4 h2 ++ "-" ++ substring 20 12 h2 ->
  h1 = h2.
Proof.
  intros L1 L2.
  do 32 (destruct h1 as [|? h1]; [discriminate L1|]).
  destruct h1; [|discriminate L1].
  do 32 (destruct h2 as [|? h2]; [discriminate L2|]).
  destruct h2; [|discriminate L2].
  cbn. intros H. injection H. intros. subst. reflexivity.
Qed.

Lemma str_of_UUID_inj (u1 u2 : UUID) :
  (u1 < 2 ^ 128)%N -> (u2 < 2 ^ 128)%N ->
  str_of_UUID u1 = str_of_UUID u2 -> u1 = u2.
Proof.
  intros H1 H2 H. unfold str_of_UUID in H. cbv zeta in H.
  apply dashes_inj in H; try apply hex_length.
  apply hex_inj in H.
  change (16 ^ N.of_nat 32)%N with (2 ^ 128)%N in H.
  now rewrite !N.mod_small in H.
Qed.

(** The text of an id loses nothing of a 128-bit id, so ids, not only
    keys, decide whether a create overwrites: two 128-bit ids with the same
    text are equal, and in a reachable store of 128-bit ids a create whose
    generated 128-bit id differs from the id of every stored record appends
    its record and leaves every stored entry in place. *)
Theorem create_under_unseen_id_appends :
  forall (env : Env) (c : AdvertisementCreate) (db : Store),
    (forall u1 u2 : UUID,
       (u1 < 2 ^ 128)%N -> (u2 < 2 ^ 128)%N ->
       str_of_UUID u1 = str_of_UUID u2 -> u1 = u2)
    /\ (validate_AdvertisementCreate c = Ok tt ->
        reachable db ->
        (uuid4 env < 2 ^ 128)%N ->
        Forall (fun ad => (id ad < 2 ^ 128)%N) (Dict.values db) ->
        ~ In (uuid4 env) (map id (Dict.values db)) ->
        create_advertisement env c db
        = (Ok (created env c),
           (db ++ [(str_of_UUID (uuid4 env), created env c)])%list)).
Proof.
  intros env c db. split; [exact str_of_UUID_inj|].
  intros Hv Hreach Hu Hids Hnew.
  rewrite (@create_valid env c db Hv). f_equal.
  apply setitem_new.
  destruct (Dict.contains (str_of_UUID (uuid4 env)) db) eqn:E;
    [|reflexivity].
  exfalso. apply Hnew.
  apply contains_In_keys in E.
  destruct (reachable_keyed_by_id Hreach) as [_ Hkey].
  rewrite (keyed_by_id_ids Hkey) in E.
  apply in_map_iff in E. destruct E as (u & Hstr & Hin).
  rewrite Forall_forall in Hids.
  assert (Hub : (u < 2 ^ 128)%N).
  { apply in_map_iff in Hin. destruct Hin as (ad & <- & Had).
    now apply Hids. }
  apply str_of_UUID_inj in Hstr; try assumption.
  now subst u.
Qed.

(** A witness: the lamp is created under an id other than the bike's. *)
Lemma lamp_is_appended_after_bike :
  create_advertisement Sample.env2 Sample.lamp Sample.db1
  = (Ok (created Sample.env2 Sample.lamp), Sample.db2).
Proof.
  apply (proj2 (@create_under_unseen_id_appends Sample.env2 Sample.lamp
                  Sample.db1)).
  - reflexivity.
  - apply (reachable_serve Sample.env1 (POST_advertisement Sample.bike)).
    apply reachable_start.
  - reflexivity.
  - repeat constructor.
  - cbn. intros [H|[]]. discriminate H.
Defined.

(* ================================================================= *)
(** ** The exceptions of the handlers *)

Lemma search_raise q (db : Store) e :
  fst (search_advertisements q db) = Raise e ->
  e = invalid_range \/ raised_by_scan e.
Proof.
  run_handler. destruct (range_inverted q); cbn [fst].
  - intros [= <-]. now left.
  - intros H. right. apply (for_each_raise _ _ _ H).
Qed.

(** The handlers, as the functions of [main.py] are written and before
    anything the framework does with their return value, raise only what
    their bodies provide for: update, delete and get raise only the 404,
    and only for an id that is not stored, so that the lookup and the
    removal that follow the membership test never raise KeyError; search
    raises only the 400, or the TypeError or AttributeError of a
    comparison in its loop; create raises only when the body breaks a
    constraint of the model, hence never on a validated body; health never
    raises. *)
Theorem handlers_raise_only_as_written :
  forall (env : Env) (db : Store) (k : string) (c : AdvertisementCreate)
         (u : AdvertisementUpdate) (q : SearchQuery) (e : exn),
    (fst (update_advertisement k u db) = Raise e ->
     e = not_found /\ Dict.contains k db = false)
    /\ (fst (delete_advertisement k db) = Raise e ->
        e = not_found /\ Dict.contains k db = false)
    /\ (fst (get_advertisement k db) = Raise e ->
        e = not_found /\ Dict.contains k db = false)
    /\ (fst (search_advertisements q db) = Raise e ->
        e = invalid_range \/ e = TypeError \/ e = AttributeError)
    /\ (fst (create_advertisement env c db) = Raise e ->
        (exists locs, e = ValidationError locs)
        /\ validate_AdvertisementCreate c <> Ok tt)
    /\ fst (health_check env db) <> Raise e.
Proof.
  intros env db k c u q e.
  repeat match goal with |- _ /\ _ => split end.
  - destruct (contains_cases db k) as [[ad [Hget _]]|Hout].
    + rewrite (update_present _ _ u Hget). discriminate.
    + rewrite (update_absent _ _ u Hout). cbn [fst]. intros [= <-].
      now split.
  - destruct (Dict.contains k db) eqn:E.
    + rewrite (delete_present _ _ E). discriminate.
    + rewrite (delete_absent _ _ E). cbn [fst]. intros [= <-]. now split.
  - destruct (contains_cases db k) as [[ad [Hget _]]|Hout].
    + rewrite (get_present _ _ Hget). discriminate.
    + rewrite (get_absent _ _ Hout). cbn [fst]. intros [= <-]. now split.
  - intros H. apply search_raise in H. unfold raised_by_scan in H. tauto.
  - intros H. split.
    + run_handler. unfold new_Advertisement, rbind in H.
      match type of H with
      | context [validated ?err ?cs] =>
          destruct (validated err cs) as [[]|e'] eqn:E
      end; cbn [fst] in H; [discriminate H|].
      injection H as <-. apply (validated_raise _ _ E).
    + intros Hv. rewrite (@create_valid env c db Hv) in H. discriminate H.
  - discriminate.
Qed.

(** A witness: the handler of search, called with an aware
    [created_after] on the store holding the bike. *)
Lemma aware_search_raises_type_error :
  TypeError = invalid_range \/ TypeError = TypeError
  \/ TypeError = AttributeError.
Proof.
  apply (proj1 (proj2 (proj2 (proj2
           (@handlers_raise_only_as_written Sample.env2 Sample.db1
              Sample.key1 Sample.bike Scenario.price_150
              Scenario.since_2023_utc TypeError))))).
  reflexivity.
Defined.

(** The letters beyond A-Z: the capital E with acute accent is folded to
    the small one, the multiplication sign (215) and the sharp s (223) are
    left as they are, and a search by the capital letter finds the title
    written with the small one. *)
Example lower_folds_accented_letters :
  Str.lower Edge.capital_E_acute = Edge.small_e_acute
  /\ Str.lower_char (ascii_of_nat 215) = ascii_of_nat 215
  /\ Str.lower_char (ascii_of_nat 223) = ascii_of_nat 223
  /\ search_advertisements Edge.by_capital_E_acute Edge.db_accented
     = (Ok [created Sample.env1 Edge.accented], Edge.db_accented).
Proof.
  repeat match goal with |- _ /\ _ => split end; vm_compute; reflexivity.
Qed.
